(** * The ripple lifecycle engine of [TouchRipple.tsx]

    A shallow embedding of the imperative handle that [TouchRipple]
    exposes ([start], [stop], [pulsate]) together with the two pieces of
    its environment that the handle talks to: React (the [ripples] state
    with its queue of updater functions, and the effect that delivers
    [rippleCallback] after a commit) and the browser's timer table
    ([setTimeout] / [clearTimeout]).

    Numbers are JavaScript numbers, that is IEEE 754 binary64 values; they
    are embedded as Rocq's primitive floats, so every geometry computation
    below evaluates to the very bits the source computes. *)

From Stdlib Require Import Floats ZArith List String Bool Arith Lia.
From Stdlib Require Uint63.
Import ListNotations.

#[local] Set Warnings "-inexact-float".

Local Open Scope bool_scope.

(* ================================================================== *)
(** ** JavaScript numbers *)
(* ================================================================== *)

Module JS.

(** A property that may be absent reads as [undefined]; the only values
    the engine reads from events are numbers or [undefined]. *)
Definition ToNumber (v : option float) : float :=
  match v with
  | Some x => x
  | None => nan
  end.

(** [!v] is false exactly for a number other than [0], [-0] and [NaN]. *)
Definition truthy (v : option float) : bool :=
  match v with
  | Some x => negb (PrimFloat.is_zero x || PrimFloat.is_nan x)
  | None => false
  end.

(** [v === 0] *)
Definition isZero (v : option float) : bool :=
  match v with
  | Some x => PrimFloat.is_zero x
  | None => false
  end.

(** An integer of magnitude below [2^53] as a number. *)
Definition ofZ (n : Z) : float :=
  if (n <? 0)%Z then PrimFloat.opp (PrimFloat.of_uint63 (Uint63.of_Z (- n)))
  else PrimFloat.of_uint63 (Uint63.of_Z n).

(** [Math.round]: the integer nearest to [x], a tie going towards
    [+Infinity]; [NaN], the infinities and integers are returned as
    they are, and a result of zero keeps the sign of [x]. *)
Definition round (x : float) : float :=
  match Prim2SF x with
  | S754_finite s m e =>
      if (0 <=? e)%Z then x
      else
        let twice := (if s then Z.neg m else Z.pos m) * 2 in
        let n := Z.shiftr (twice + 2 ^ (- e)) (1 - e) in
        if s then PrimFloat.opp (ofZ (- n)) else ofZ n
  | _ => x
  end%Z.

(** [x % y]: the remainder of the truncating division, with the sign of
    the dividend.  It is always representable, so the normalisation
    below never rounds. *)
Definition rem (x y : float) : float :=
  match Prim2SF x, Prim2SF y with
  | S754_nan, _ | _, S754_nan => nan
  | S754_infinity _, _ => nan
  | _, S754_zero _ => nan
  | _, S754_infinity _ => x
  | S754_zero _, _ => x
  | S754_finite sx mx ex, S754_finite _ my ey =>
      let e := Z.min ex ey in
      let X := (Z.pos mx * 2 ^ (ex - e))%Z in
      let Y := (Z.pos my * 2 ^ (ey - e))%Z in
      let r := SF2Prim (binary_normalize prec emax (X mod Y) e false) in
      if sx then PrimFloat.opp r else r
  end.

(** [Math.max] of two numbers: [NaN] is contagious and [+0] is larger
    than [-0]. *)
Definition max (a b : float) : float :=
  if PrimFloat.is_nan a || PrimFloat.is_nan b then nan
  else if PrimFloat.ltb a b then b
  else if PrimFloat.ltb b a then a
  else if PrimFloat.get_sign a then b else a.

Definition abs (x : float) : float := PrimFloat.abs x.

(** [Math.sqrt], and [x ** 2] as the correctly rounded product (exact
    whenever the square is representable). *)
Definition sqrt (x : float) : float := PrimFloat.sqrt x.
Definition sq (x : float) : float := PrimFloat.mul x x.

End JS.

Arguments JS.round : simpl never.
Arguments JS.rem : simpl never.
Arguments JS.max : simpl never.
Arguments JS.sqrt : simpl never.
Arguments JS.sq : simpl never.
Arguments JS.abs : simpl never.

(* ================================================================== *)
(** ** Data *)
(* ================================================================== *)

Definition DURATION : nat := 550.
Definition DELAY_RIPPLE : nat := 80.

(** What [getBoundingClientRect] returns, as far as [start] reads it. *)
Record DOMRect := mkRect {
  width : float;
  height : float;
  left : float;
  top : float
}.

(** The element behind the [container] ref. *)
Record Element := mkElement {
  getBoundingClientRect : DOMRect;
  clientWidth : float;
  clientHeight : float
}.

(** The pair [{ clientX, clientY }] that [start] destructures from the
    event or from its first touch point. *)
Record Point := mkPoint {
  clientX : option float;
  clientY : option float
}.

(** The fields of an event that [start] and [stop] read.  Events are
    React synthetic events or plain objects such as [{}]; [event.persist]
    is taken to be callable and without effect on the engine. *)
Record Event := mkEvent {
  type : option string;
  point : Point;
  touches : option (list Point)
}.

(** The [options] argument of [start]; an absent property is [None]. *)
Record Options := mkOptions {
  opt_pulsate : option bool;
  opt_center : option bool;
  opt_fakeElement : option bool
}.

(** A callback is a thunk owned by the caller.  The engine only stores
    and invokes it; it is identified by a number and its invocations are
    recorded in the engine's log. *)
Definition callback := nat.

(** The argument of [startCommit]. *)
Record Params := mkParams {
  p_pulsate : bool;
  p_rippleX : float;
  p_rippleY : float;
  p_rippleSize : float;
  p_cb : option callback
}.

(** One [<TouchRippleRipple/>] element of the [ripples] array (the
    [classes] prop only carries style names and is left out). *)
Record Ripple := mkRipple {
  r_key : nat;
  r_timeout : nat;
  r_pulsate : bool;
  r_rippleX : float;
  r_rippleY : float;
  r_rippleSize : float
}.

(** The two updater functions the engine passes to [setRipples]. *)
Inductive Updater :=
| Append (params : Params)   (* oldRipples => [...oldRipples, <Ripple/>] *)
| DropFirst.                 (* oldRipples => length > 0 ? slice(1) : oldRipples *)

(** The two kinds of function the engine passes to [setTimeout]. *)
Inductive Task :=
| RunCommit                                   (* start, the deferred commit *)
| RunStop (event : Event) (cb : option callback).   (* stop, called again *)

Record Timer := mkTimer {
  tm_id : nat;
  tm_delay : nat;
  tm_task : Task
}.

(** What an observer of the component sees, in order. *)
Inductive Obs :=
| Rendered (rs : list Ripple)   (* a commit with a new [ripples] array *)
| Called (cb : callback).       (* the effect invoked [rippleCallback] *)

(** One mounted [TouchRipple]. *)
Record Engine := mkEngine {
  (* props and the container ref *)
  centerProp : bool;
  container : option Element;
  (* useState: the committed array and the updaters not yet processed *)
  ripples : list Ripple;
  updates : list Updater;
  (* refs *)
  nextKey : nat;
  rippleCallback : option callback;
  ignoringMouseDown : bool;
  startTimer : option nat;
  startTimerCommit : option Params;
  (* the browser's live timers and the next timer id *)
  timers : list Timer;
  nextTimer : nat;
  (* observations so far *)
  log : list Obs
}.

(** The component right after mounting. *)
Definition mount (center : bool) (el : option Element) : Engine :=
  mkEngine center el [] [] 0 None false None None [] 1 [].

(** Field updates. *)
Definition set_ripples v (s : Engine) :=
  mkEngine (centerProp s) (container s) v (updates s) (nextKey s)
    (rippleCallback s) (ignoringMouseDown s) (startTimer s)
    (startTimerCommit s) (timers s) (nextTimer s) (log s).
Definition set_updates v (s : Engine) :=
  mkEngine (centerProp s) (container s) (ripples s) v (nextKey s)
    (rippleCallback s) (ignoringMouseDown s) (startTimer s)
    (startTimerCommit s) (timers s) (nextTimer s) (log s).
Definition set_nextKey v (s : Engine) :=
  mkEngine (centerProp s) (container s) (ripples s) (updates s) v
    (rippleCallback s) (ignoringMouseDown s) (startTimer s)
    (startTimerCommit s) (timers s) (nextTimer s) (log s).
Definition set_rippleCallback v (s : Engine) :=
  mkEngine (centerProp s) (container s) (ripples s) (updates s) (nextKey s)
    v (ignoringMouseDown s) (startTimer s)
    (startTimerCommit s) (timers s) (nextTimer s) (log s).
Definition set_ignoringMouseDown v (s : Engine) :=
  mkEngine (centerProp s) (container s) (ripples s) (updates s) (nextKey s)
    (rippleCallback s) v (startTimer s)
    (startTimerCommit s) (timers s) (nextTimer s) (log s).
Definition set_startTimer v (s : Engine) :=
  mkEngine (centerProp s) (container s) (ripples s) (updates s) (nextKey s)
    (rippleCallback s) (ignoringMouseDown s) v
    (startTimerCommit s) (timers s) (nextTimer s) (log s).
Definition set_startTimerCommit v (s : Engine) :=
  mkEngine (centerProp s) (container s) (ripples s) (updates s) (nextKey s)
    (rippleCallback s) (ignoringMouseDown s) (startTimer s)
    v (timers s) (nextTimer s) (log s).
Definition set_timers v (s : Engine) :=
  mkEngine (centerProp s) (container s) (ripples s) (updates s) (nextKey s)
    (rippleCallback s) (ignoringMouseDown s) (startTimer s)
    (startTimerCommit s) v (nextTimer s) (log s).
Definition set_nextTimer v (s : Engine) :=
  mkEngine (centerProp s) (container s) (ripples s) (updates s) (nextKey s)
    (rippleCallback s) (ignoringMouseDown s) (startTimer s)
    (startTimerCommit s) (timers s) v (log s).
Definition set_log v (s : Engine) :=
  mkEngine (centerProp s) (container s) (ripples s) (updates s) (nextKey s)
    (rippleCallback s) (ignoringMouseDown s) (startTimer s)
    (startTimerCommit s) (timers s) (nextTimer s) v.

(* ================================================================== *)
(** ** The environment: React and the timer table *)
(* ================================================================== *)

(** The component talks to React through [useState] and [useEffect] and
    to the browser through [setTimeout] and [clearTimeout].  Their part
    is modelled as follows.  An updater passed to [setRipples] is queued
    and run when React next renders; a render that ends with a new array
    is committed, and the effect whose dependency is [ripples] runs
    after that commit; it never runs inside [start] or [stop], which
    return first.  Timers live in a table under ids that are never
    reused. *)

(** [setRipples(updater)]: React queues the updater. *)
Definition setRipples (u : Updater) (s : Engine) : Engine :=
  set_updates (updates s ++ [u]) s.

(** Running one updater on the array it is given.  The boolean tells
    whether the result is a new array: spreading and [slice] build one,
    [return oldRipples] hands back the same object.  The [key] of an
    appended element is [nextKey.current] as it reads when the updater
    runs (React may run an updater earlier than the render; only the
    key could tell, and no statement below depends on the value of a
    key). *)
Definition runUpdater (key : nat) (u : Updater) (old : list Ripple)
  : list Ripple * bool :=
  match u with
  | Append p =>
      (old ++ [mkRipple key DURATION (p_pulsate p) (p_rippleX p)
                 (p_rippleY p) (p_rippleSize p)], true)
  | DropFirst =>
      match old with
      | [] => (old, false)
      | _ :: rest => (rest, true)
      end
  end.

Fixpoint runUpdates (key : nat) (us : list Updater) (old : list Ripple)
  : list Ripple * bool :=
  match us with
  | [] => (old, false)
  | u :: us' =>
      let '(mid, c1) := runUpdater key u old in
      let '(new, c2) := runUpdates key us' mid in
      (new, c1 || c2)
  end.

(** The effect [useEffect(..., [ripples])]. *)
Definition rippleCallbackEffect (s : Engine) : Engine :=
  match rippleCallback s with
  | Some cb => set_rippleCallback None (set_log (log s ++ [Called cb]) s)
  | None => s
  end.

(** One turn of React: the queued updaters are processed; when they
    produce a new array the component re-renders with it and, after the
    commit, the effect depending on [ripples] runs.  When the array is
    the same object React bails out and no effect runs. *)
Definition render (s : Engine) : Engine :=
  let '(new, changed) := runUpdates (nextKey s) (updates s) (ripples s) in
  let s1 := set_updates [] s in
  if changed then
    rippleCallbackEffect
      (set_log (log s1 ++ [Rendered new]) (set_ripples new s1))
  else s1.

(** [setTimeout(task, delay)]: a fresh id, a new live timer. *)
Definition setTimeout (task : Task) (delay : nat) (s : Engine)
  : nat * Engine :=
  let id := nextTimer s in
  (id, set_nextTimer (S id) (set_timers (timers s ++ [mkTimer id delay task]) s)).

(** [clearTimeout(id)]: the timer, if it is still live, is dropped. *)
Definition clearTimeout (id : option nat) (s : Engine) : Engine :=
  match id with
  | Some i => set_timers (filter (fun t => negb (tm_id t =? i)) (timers s)) s
  | None => s
  end.

Definition findTimer (id : nat) (s : Engine) : option Timer :=
  find (fun t => tm_id t =? id) (timers s).

(* ================================================================== *)
(** ** The engine: [startCommit], [start], [pulsate], [stop] *)
(* ================================================================== *)

Local Open Scope float_scope.

(** The rectangle [start] uses when nothing is mounted or the caller
    asked for [fakeElement]. *)
Definition zeroRect : DOMRect := mkRect 0 0 0 0.

(** [startCommit(params)] *)
Definition startCommit (params : Params) (s : Engine) : Engine :=
  set_rippleCallback (p_cb params)
    (set_nextKey (nextKey s + 1)%nat
       (setRipples (Append params) s)).

(** An absent boolean property is [undefined], which is falsy. *)
Definition orFalse (v : option bool) : bool :=
  match v with
  | Some b => b
  | None => false
  end.

(** The destructuring at the top of [start], with its defaults:
    [pulsate = false] *)
Definition pulsateOf (options : Options) : bool := orFalse (opt_pulsate options).

(** [center = centerProp || options.pulsate] *)
Definition centerOf (s : Engine) (options : Options) : bool :=
  match opt_center options with
  | Some c => c
  | None => centerProp s || orFalse (opt_pulsate options)
  end.

(** [element = fakeElement ? null : container.current], with
    [fakeElement = false] by default *)
Definition elementOf (s : Engine) (options : Options) : option Element :=
  if orFalse (opt_fakeElement options) then None else container s.

(** [rect]: the measured box, or the zero rectangle without an element. *)
Definition rectOf (element : option Element) : DOMRect :=
  match element with
  | Some el => getBoundingClientRect el
  | None => zeroRect
  end.

Definition isSome {A} (v : option A) : bool :=
  match v with
  | Some _ => true
  | None => false
  end.

Definition typeIs (event : Event) (name : string) : bool :=
  match type event with
  | Some t => String.eqb t name
  | None => false
  end.

(** The condition of the first [if] of the geometry block. *)
Definition centered (center : bool) (event : Event) : bool :=
  center
  || (JS.isZero (clientX (point event)) && JS.isZero (clientY (point event)))
  || (negb (JS.truthy (clientX (point event))) && negb (isSome (touches event))).

(** [event.touches ? event.touches[0] : event]; indexing an empty list
    gives [undefined]. *)
Definition pointOf (event : Event) : option Point :=
  match touches event with
  | Some ts => hd_error ts
  | None => Some (point event)
  end.

(** [rippleX] and [rippleY]; [None] when destructuring [undefined] throws. *)
Definition ripplePosition (center : bool) (event : Event) (rect : DOMRect)
  : option (float * float) :=
  if centered center event then
    Some (JS.round (width rect / 2), JS.round (height rect / 2))
  else
    match pointOf event with
    | Some pt =>
        Some (JS.round (JS.ToNumber (clientX pt) - left rect),
              JS.round (JS.ToNumber (clientY pt) - top rect))
    | None => None
    end.

Definition centerSize (rect : DOMRect) : float :=
  let rippleSize :=
    JS.sqrt ((2 * JS.sq (width rect) + JS.sq (height rect)) / 3) in
  if JS.rem rippleSize 2 =? 0 then rippleSize + 1 else rippleSize.

Definition sizeX (element : option Element) (rippleX : float) : float :=
  JS.max
    (JS.abs ((match element with Some el => clientWidth el | None => 0 end)
             - rippleX))
    rippleX * 2 + 2.

Definition sizeY (element : option Element) (rippleY : float) : float :=
  JS.max
    (JS.abs ((match element with Some el => clientHeight el | None => 0 end)
             - rippleY))
    rippleY * 2 + 2.

Definition cornerSize (element : option Element) (rippleX rippleY : float)
  : float :=
  JS.sqrt (JS.sq (sizeX element rippleX) + JS.sq (sizeY element rippleY)).

(** [rippleSize]: the second [if] of the geometry block tests [center]
    alone. *)
Definition rippleSizeOf (center : bool) (element : option Element)
  (rect : DOMRect) (rippleX rippleY : float) : float :=
  if center then centerSize rect else cornerSize element rippleX rippleY.

(** The body of [if (startTimerCommit.current === null)]: the commit
    closure is stored and the timer is armed. *)
Definition deferCommit (params : Params) (s : Engine) : Engine :=
  let s1 := set_startTimerCommit (Some params) s in
  let '(id, s2) := setTimeout RunCommit DELAY_RIPPLE s1 in
  set_startTimer (Some id) s2.

(** The last block of [start]: a touch event defers the commit unless a
    deferred commit is already stored; any other event commits. *)
Definition commitOrDefer (event : Event) (params : Params) (s : Engine)
  : Engine :=
  match touches event with
  | Some _ =>
      match startTimerCommit s with
      | None => deferCommit params s
      | Some _ => s
      end
  | None => startCommit params s
  end.

(** A call either returns or throws; the writes made before a throw
    stay. *)
Inductive Outcome :=
| Returned (s : Engine)
| TypeError (s : Engine).

Definition engineOf (o : Outcome) : Engine :=
  match o with
  | Returned s => s
  | TypeError s => s
  end.

(** The two flag-handling statements at the top of [start]. *)
Definition suppressed (event : Event) (s : Engine) : bool :=
  typeIs event "mousedown" && ignoringMouseDown s.

Definition noteTouchStart (event : Event) (s : Engine) : Engine :=
  if typeIs event "touchstart" then set_ignoringMouseDown true s else s.

(** [start(event, options, cb)] *)
Definition start (event : Event) (options : Options) (cb : option callback)
  (s : Engine) : Outcome :=
  let pulsate := pulsateOf options in
  let center := centerOf s options in
  if suppressed event s then
    Returned (set_ignoringMouseDown false s)
  else
    let s := noteTouchStart event s in
    let element := elementOf s options in
    let rect := rectOf element in
    match ripplePosition center event rect with
    | None => TypeError s
    | Some (rippleX, rippleY) =>
        let rippleSize := rippleSizeOf center element rect rippleX rippleY in
        Returned
          (commitOrDefer event
             (mkParams pulsate rippleX rippleY rippleSize cb) s)
    end.

(** The empty object [{}]. *)
Definition emptyEvent : Event := mkEvent None (mkPoint None None) None.

(** [pulsate()], that is [start({}, { pulsate: true })]. *)
Definition pulsate (s : Engine) : Outcome :=
  start emptyEvent (mkOptions (Some true) None None) None s.

(** A call [pulsate(callback)]: [pulsate] declares no parameter, so the
    argument is dropped. *)
Definition pulsateWith (_ : option callback) (s : Engine) : Outcome :=
  pulsate s.

(** [stop(event, cb)] *)
Definition stop (event : Event) (cb : option callback) (s : Engine) : Engine :=
  let s := clearTimeout (startTimer s) s in
  match typeIs event "touchend", startTimerCommit s with
  | true, Some params =>
      let s1 := startCommit params s in
      let s2 := set_startTimerCommit None s1 in
      let '(id, s3) := setTimeout (RunStop event cb) 0 s2 in
      set_startTimer (Some id) s3
  | _, _ =>
      let s1 := set_startTimerCommit None s in
      let s2 := setRipples DropFirst s1 in
      set_rippleCallback cb s2
  end.

(** The body of a timer when the browser runs it. *)
Definition runTask (task : Task) (s : Engine) : Engine :=
  match task with
  | RunCommit =>
      match startTimerCommit s with
      | Some params => set_startTimerCommit None (startCommit params s)
      | None => s
      end
  | RunStop event cb => stop event cb s
  end.

(** The browser fires a live timer: it leaves the table (one shot) and
    its body runs.  Firing an id that is not live does nothing. *)
Definition fire (id : nat) (s : Engine) : Engine :=
  match findTimer id s with
  | Some t =>
      runTask (tm_task t)
        (set_timers (filter (fun t' => negb (tm_id t' =? id)%nat) (timers s)) s)
  | None => s
  end.

(** What can happen to a mounted engine, and runs of such steps. *)
Inductive Action :=
| DoStart (event : Event) (options : Options) (cb : option callback)
| DoStop (event : Event) (cb : option callback)
| DoPulsate
| DoFire (id : nat)
| DoRender.

Definition step (s : Engine) (a : Action) : Engine :=
  match a with
  | DoStart event options cb => engineOf (start event options cb s)
  | DoStop event cb => stop event cb s
  | DoPulsate => engineOf (pulsate s)
  | DoFire id => fire id s
  | DoRender => render s
  end.

Definition run (s : Engine) (acts : list Action) : Engine :=
  fold_left step acts s.

(** The states an engine can be in. *)
Definition reachable (s : Engine) : Prop :=
  exists center el acts, s = run (mount center el) acts.

(** The array the next updater will be given: the committed one after the
    updaters already queued. *)
Definition pendingRipples (s : Engine) : list Ripple :=
  fst (runUpdates (nextKey s) (updates s) (ripples s)).

Definition isCommit (t : Timer) : bool :=
  match tm_task t with
  | RunCommit => true
  | RunStop _ _ => false
  end.

(** The deferred commits still waiting for their timer. *)
Definition deferredCommits (s : Engine) : list Timer :=
  filter isCommit (timers s).

(** [stop] takes its force-fire branch exactly when this holds. *)
Definition forceFire (event : Event) (s : Engine) : bool :=
  typeIs event "touchend" && isSome (startTimerCommit s).

(** The observations made between an earlier state and a later one. *)
Definition logSince (s s' : Engine) : list Obs :=
  skipn (List.length (log s)) (log s').

(* ================================================================== *)
(** ** Sample inputs *)
(* ================================================================== *)

Module Sample.

(** A surface measured as [{left:10, top:10, width:100, height:50}]
    with [clientWidth = 100] and [clientHeight = 50]. *)
Definition box : Element := mkElement (mkRect 100 50 10 10) 100 50.

Definition noOptions : Options := mkOptions None None None.
Definition centerOption : Options := mkOptions None (Some true) None.
Definition pulsateOption : Options := mkOptions (Some true) None None.

Definition mouseDown (x y : float) : Event :=
  mkEvent (Some "mousedown"%string) (mkPoint (Some x) (Some y)) None.
Definition mouseUp : Event :=
  mkEvent (Some "mouseup"%string) (mkPoint (Some 60) (Some 30)) None.
Definition touchStart (x y : float) : Event :=
  mkEvent (Some "touchstart"%string) (mkPoint None None)
    (Some [mkPoint (Some x) (Some y)]).
Definition touchEnd : Event :=
  mkEvent (Some "touchend"%string) (mkPoint None None) (Some []).

Definition mounted : Engine := mount false (Some box).

(** Two ripples on screen, committed by two mouse presses. *)
Definition twoRipples : Engine :=
  run mounted
    [DoStart (mouseDown 60 30) noOptions None; DoRender;
     DoStart (mouseDown 20 40) noOptions None; DoRender].

(** A touch press whose commit is still deferred. *)
Definition touching : Engine :=
  run mounted [DoStart (touchStart 60 30) noOptions (Some 1%nat)].

End Sample.

(* ================================================================== *)
(** ** Predicates used in the statements *)
(* ================================================================== *)

(** Whether the next render will see a new [ripples] array. *)
Definition changes (s : Engine) : bool :=
  snd (runUpdates (nextKey s) (updates s) (ripples s)).

(** The callbacks invoked in a stretch of the log, in order. *)
Fixpoint calls (l : list Obs) : list callback :=
  match l with
  | [] => []
  | Called c :: l' => c :: calls l'
  | Rendered _ :: l' => calls l'
  end.

(** What the effect appends to the log when it runs. *)
Definition delivery (cb : option callback) : list Obs :=
  match cb with
  | Some c => [Called c]
  | None => []
  end.

(** The timer table and the two timer refs agree: timer ids are fresh
    and distinct, and the live deferred commits are exactly the one
    [startTimer] names while [startTimerCommit] holds a closure, none
    otherwise. *)
Record consistent (s : Engine) : Prop := mkConsistent {
  ids_fresh : Forall (fun t => (tm_id t < nextTimer s)%nat) (timers s);
  ids_unique : NoDup (map tm_id (timers s));
  deferred_ok :
    match startTimerCommit s with
    | Some _ =>
        exists id, startTimer s = Some id /\
                   deferredCommits s = [mkTimer id DELAY_RIPPLE RunCommit]
    | None => deferredCommits s = []
    end
}.

(** The geometry [start] hands to [startCommit] on the centred and on
    the corner-covering size formula. *)
Definition centredParams (options : Options) (cb : option callback)
  (rect : DOMRect) : Params :=
  mkParams (pulsateOf options)
    (JS.round (width rect / 2)) (JS.round (height rect / 2))
    (centerSize rect) cb.

(** Five readings of the specification that the engine is compared with
    below. *)

(** Whatever places the ripple at the centre of the box also sizes it
    by the centred formula. *)
Definition centredPlacementSizesCentred : Prop :=
  forall event options cb s,
    suppressed event s = false ->
    centered (centerOf s options) event = true ->
    start event options cb s =
    Returned
      (commitOrDefer event
         (centredParams options cb (rectOf (elementOf s options)))
         (noteTouchStart event s)).

(** A callback stored by a [stop] on an empty collection is delivered
    by the next mutation that has nothing to do with it. *)
Definition staleCallbackFiresOnNextMutation : Prop :=
  forall s event c next options,
    forceFire event s = false ->
    ripples s = [] -> updates s = [] ->
    let s1 := render (stop event (Some c) s) in
    touches next = None ->
    suppressed next s1 = false ->
    In c (calls (logSince s (render (engineOf (start next options None s1))))).

(** [pulsate] hands its argument on to [start]. *)
Definition pulsateForwardsCallback : Prop :=
  forall cb s,
    pulsateWith cb s = start emptyEvent (mkOptions (Some true) None None) cb s.




(* ================================================================== *)
(** ** Teardown, runs of calls, and who holds a callback *)
(* ================================================================== *)

(** The cleanup of the mount effect: [clearTimeout(startTimer.current)]. *)
Definition unmount (s : Engine) : Engine :=
  clearTimeout (startTimer s) s.

(** The argument [start] builds for [startCommit] from its geometry
    block; [None] when the block throws. *)
Definition paramsOf (s : Engine) (event : Event) (options : Options)
  (cb : option callback) : option Params :=
  let center := centerOf s options in
  let element := elementOf s options in
  let rect := rectOf element in
  match ripplePosition center event rect with
  | Some (rippleX, rippleY) =>
      Some (mkParams (pulsateOf options) rippleX rippleY
              (rippleSizeOf center element rect rippleX rippleY) cb)
  | None => None
  end.

(** What a ripple shows, its key apart. *)
Definition Shape : Type := bool * float * float * float.

Definition shape (r : Ripple) : Shape :=
  (r_pulsate r, r_rippleX r, r_rippleY r, r_rippleSize r).

Definition shapeOfParams (p : Params) : Shape :=
  (p_pulsate p, p_rippleX p, p_rippleY p, p_rippleSize p).

(** The shapes of the collection the next render will show. *)
Definition shapes (s : Engine) : list Shape :=
  map shape (pendingRipples s).

(** The arguments of one call of [start], and of one call of [stop]. *)
Definition StartCall : Type := Event * Options * option callback.
Definition StopCall : Type := Event * option callback.

Definition doStart (c : StartCall) : Action :=
  let '(event, options, cb) := c in DoStart event options cb.

Definition doStop (c : StopCall) : Action :=
  let '(event, cb) := c in DoStop event cb.

(** An event that [start] commits at once whenever the mouse flag is
    down: no touches list, and not a [touchstart] that would raise the
    flag. *)
Definition plainPress (c : StartCall) : Prop :=
  let '(event, _, _) := c in
  touches event = None /\ typeIs event "touchstart" = false.

(** The shape [start] gives the ripple of such a call. *)
Definition shapeOfCall (s : Engine) (c : StartCall) : list Shape :=
  let '(event, options, cb) := c in
  match paramsOf s event options cb with
  | Some p => [shapeOfParams p]
  | None => []
  end.

Definition callbackList (cb : option callback) : list callback :=
  match cb with
  | Some c => [c]
  | None => []
  end.

(** The callbacks handed to the engine by a run of actions. *)
Definition given (a : Action) : list callback :=
  match a with
  | DoStart _ _ cb => callbackList cb
  | DoStop _ cb => callbackList cb
  | DoPulsate => []
  | DoFire _ => []
  | DoRender => []
  end.

(** The callbacks the engine holds: in the slot, in the stored commit
    closure, and in the [stop] calls waiting in the timer table. *)
Definition heldByTask (t : Timer) : list callback :=
  match tm_task t with
  | RunCommit => []
  | RunStop _ cb => callbackList cb
  end.

Definition held (s : Engine) : list callback :=
  callbackList (rippleCallback s)
  ++ match startTimerCommit s with
     | Some p => callbackList (p_cb p)
     | None => []
     end
  ++ flat_map heldByTask (timers s).

Definition occurrences (c : callback) (l : list callback) : nat :=
  count_occ Nat.eq_dec l c.

(** What the log holds of a callback, plus what the engine still holds
    of it. *)
Definition accounted (c : callback) (s : Engine) : nat :=
  (occurrences c (calls (log s)) + occurrences c (held s))%nat.

(** The state the effect sees when a render has shown a new array. *)
Definition shown (s : Engine) : Engine :=
  set_log (log s ++ [Rendered (pendingRipples s)])
    (set_ripples (pendingRipples s) (set_updates [] s)).

(* ================================================================== *)
(** ** [useIsFocusVisible.ts]: keyboard modality *)
(* ================================================================== *)

Module FocusVisible.

Local Open Scope nat_scope.

(** The own keys of [inputTypesWhitelist]; every value is [true]. *)
Definition inputTypesWhitelist : list string :=
  ["text"; "search"; "url"; "tel"; "email"; "password"; "number"; "date";
   "month"; "week"; "time"; "datetime"; "datetime-local"]%string.

(** [inputTypesWhitelist] is an object literal, so reading a key also
    finds what it inherits from [Object.prototype]; each of these is a
    function or an object, hence truthy. *)
Definition inheritedKeys : list string :=
  ["constructor"; "__defineGetter__"; "__defineSetter__"; "hasOwnProperty";
   "__lookupGetter__"; "__lookupSetter__"; "isPrototypeOf";
   "propertyIsEnumerable"; "toString"; "valueOf"; "__proto__";
   "toLocaleString"]%string.

(** The truthiness of [inputTypesWhitelist[type]]; an absent [type] is
    the key ["undefined"], which nothing defines. *)
Definition whitelisted (type : option string) : bool :=
  match type with
  | Some t => existsb (String.eqb t) (inputTypesWhitelist ++ inheritedKeys)
  | None => false
  end.

(** What the module reads of a DOM node.  [matches] is the answer of
    [node.matches(":focus-visible")], [None] when the call throws
    (the selector is not supported). *)
Record Node := mkNode {
  type : option string;
  tagName : string;
  readOnly : bool;
  isContentEditable : bool;
  matches : option bool
}.

(** [focusTriggersKeyboardModality(node)] *)
Definition focusTriggersKeyboardModality (node : Node) : bool :=
  if String.eqb (tagName node) "INPUT" && whitelisted (type node)
     && negb (readOnly node)
  then true
  else if String.eqb (tagName node) "TEXTAREA" && negb (readOnly node)
  then true
  else if isContentEditable node then true
  else false.

(** The module-level variables, and the window timers armed by
    [handleBlurVisible]: each live id stands for one pending
    [hadFocusVisibleRecently = false] with delay 100. *)
Record Globals := mkGlobals {
  hadKeyboardEvent : bool;
  hadFocusVisibleRecently : bool;
  hadFocusVisibleRecentlyTimeout : option nat;
  live : list nat;
  nextId : nat
}.

(** The module as it is loaded. *)
Definition loaded : Globals := mkGlobals true false None [] 1.

Definition RECENTLY_DELAY : nat := 100.

Record KeyboardEvent := mkKey {
  metaKey : bool;
  altKey : bool;
  ctrlKey : bool
}.

(** [handleKeyDown(event)] *)
Definition handleKeyDown (event : KeyboardEvent) (g : Globals) : Globals :=
  if metaKey event || altKey event || ctrlKey event then g
  else mkGlobals true (hadFocusVisibleRecently g)
         (hadFocusVisibleRecentlyTimeout g) (live g) (nextId g).

(** [handlePointerDown()] *)
Definition handlePointerDown (g : Globals) : Globals :=
  mkGlobals false (hadFocusVisibleRecently g)
    (hadFocusVisibleRecentlyTimeout g) (live g) (nextId g).

(** [handleVisibilityChange()], with [this.visibilityState] as its
    argument. *)
Definition handleVisibilityChange (visibilityState : string) (g : Globals)
  : Globals :=
  if String.eqb visibilityState "hidden" then
    if hadFocusVisibleRecently g then
      mkGlobals true (hadFocusVisibleRecently g)
        (hadFocusVisibleRecentlyTimeout g) (live g) (nextId g)
    else g
  else g.

(** [isFocusVisible(event)], with [event.target] as its argument. *)
Definition isFocusVisible (target : Node) (g : Globals) : bool :=
  match matches target with
  | Some answer => answer
  | None => hadKeyboardEvent g || focusTriggersKeyboardModality target
  end.

(** [window.clearTimeout(id)] and [window.setTimeout(..., 100)]. *)
Definition clearTimeout (id : option nat) (l : list nat) : list nat :=
  match id with
  | Some i => filter (fun j => negb (j =? i)) l
  | None => l
  end.

(** [handleBlurVisible()], on the hook's [isFocusVisibleRef.current]:
    the returned boolean, the new ref and the new module state. *)
Definition handleBlurVisible (ref : bool) (g : Globals)
  : bool * bool * Globals :=
  if ref then
    (true, false,
     mkGlobals (hadKeyboardEvent g) true (Some (nextId g))
       (clearTimeout (hadFocusVisibleRecentlyTimeout g) (live g)
        ++ [nextId g])
       (S (nextId g)))
  else (false, ref, g).

(** [handleFocusVisible(event)] *)
Definition handleFocusVisible (target : Node) (ref : bool) (g : Globals)
  : bool * bool * Globals :=
  if isFocusVisible target g then (true, true, g) else (false, ref, g).

(** The body of the timer: [hadFocusVisibleRecently = false]. *)
Definition fire (id : nat) (g : Globals) : Globals :=
  if existsb (Nat.eqb id) (live g) then
    mkGlobals (hadKeyboardEvent g) false (hadFocusVisibleRecentlyTimeout g)
      (filter (fun j => negb (j =? id)) (live g)) (nextId g)
  else g.

(** The listeners [prepare(doc)] installs, by event type. *)
Inductive Handler := OnKeyDown | OnPointerDown | OnVisibilityChange.

Definition Listener : Type := string * Handler.

Definition sameListener (a b : Listener) : bool :=
  String.eqb (fst a) (fst b)
  && match snd a, snd b with
     | OnKeyDown, OnKeyDown => true
     | OnPointerDown, OnPointerDown => true
     | OnVisibilityChange, OnVisibilityChange => true
     | _, _ => false
     end.

(** [doc.addEventListener(type, handler, true)]: a listener already
    registered for the same type and phase is not added again. *)
Definition addEventListener (l : Listener) (doc : list Listener)
  : list Listener :=
  if existsb (sameListener l) doc then doc else doc ++ [l].

(** [prepare(doc)] *)
Definition prepare (doc : list Listener) : list Listener :=
  addEventListener ("visibilitychange"%string, OnVisibilityChange)
    (addEventListener ("touchstart"%string, OnPointerDown)
       (addEventListener ("pointerdown"%string, OnPointerDown)
          (addEventListener ("mousedown"%string, OnPointerDown)
             (addEventListener ("keydown"%string, OnKeyDown) doc)))).

(** A capturing event reaching the document: its type, the modifier
    state a keyboard event would carry and the document's
    [visibilityState]. *)
Record DocEvent := mkDocEvent {
  ev_type : string;
  ev_keys : KeyboardEvent;
  ev_visibilityState : string
}.

Definition runHandler (h : Handler) (e : DocEvent) (g : Globals) : Globals :=
  match h with
  | OnKeyDown => handleKeyDown (ev_keys e) g
  | OnPointerDown => handlePointerDown g
  | OnVisibilityChange => handleVisibilityChange (ev_visibilityState e) g
  end.

(** The listeners registered for the event's type run in order. *)
Definition dispatch (doc : list Listener) (e : DocEvent) (g : Globals)
  : Globals :=
  fold_left
    (fun g' l => if String.eqb (fst l) (ev_type e)
                 then runHandler (snd l) e g' else g')
    doc g.

(** What can happen to the module and to the refs of the hooks that use
    it: a document handler runs, a hook's [onFocus] or [onBlur] is
    called, the owner of a hook writes its ref, a timer fires. *)
Inductive Step :=
| KeyDown (event : KeyboardEvent)
| PointerDown
| VisibilityChange (visibilityState : string)
| Focus (hook : nat) (target : Node)
| Blur (hook : nat)
| WriteRef (hook : nat) (value : bool)
| Fire (id : nat).

(** The refs of the hooks, by hook number; a hook not in the list has
    its initial ref, [false]. *)
Definition getRef (refs : list bool) (hook : nat) : bool :=
  nth hook refs false.

Fixpoint setRef (refs : list bool) (hook : nat) (value : bool) : list bool :=
  match hook, refs with
  | O, [] => [value]
  | O, _ :: rest => value :: rest
  | S h, [] => false :: setRef [] h value
  | S h, r :: rest => r :: setRef rest h value
  end.

Definition step (st : list bool * Globals) (a : Step) : list bool * Globals :=
  let '(refs, g) := st in
  match a with
  | KeyDown event => (refs, handleKeyDown event g)
  | PointerDown => (refs, handlePointerDown g)
  | VisibilityChange v => (refs, handleVisibilityChange v g)
  | Focus hook target =>
      let '(_, ref, g') := handleFocusVisible target (getRef refs hook) g in
      (setRef refs hook ref, g')
  | Blur hook =>
      let '(_, ref, g') := handleBlurVisible (getRef refs hook) g in
      (setRef refs hook ref, g')
  | WriteRef hook value => (setRef refs hook value, g)
  | Fire id => (refs, fire id g)
  end.

Definition run (st : list bool * Globals) (steps : list Step)
  : list bool * Globals :=
  fold_left step steps st.

(** A key press with a modifier held. *)
Definition modified (a : Step) : bool :=
  match a with
  | KeyDown event => metaKey event || altKey event || ctrlKey event
  | _ => false
  end.

(** [hadFocusVisibleRecently] and the window timers agree: while the flag
    is up exactly the timer [hadFocusVisibleRecentlyTimeout] names is
    live, and while it is down none is. *)
Definition timed (g : Globals) : Prop :=
  if hadFocusVisibleRecently g
  then exists id, hadFocusVisibleRecentlyTimeout g = Some id /\ live g = [id]
  else live g = [].

(** A node whose focus says nothing by itself, in a browser that does
    not know [:focus-visible]. *)
Definition plainNode (target : Node) : Prop :=
  matches target = None /\ focusTriggersKeyboardModality target = false.

Definition has (l : Listener) (doc : list Listener) : bool :=
  existsb (sameListener l) doc.

End FocusVisible.

(* ================================================================== *)
(** ** [Ripple.tsx]: one ripple and its exit *)
(* ================================================================== *)

Module Exit.

Local Open Scope nat_scope.

(** The props of [Ripple] that drive its life: [in] (injected by the
    transition group, possibly absent), [timeout], and [onExited]
    (absent: the default [() => {}]).  The geometry and class props only
    reach the style and class attributes. *)
Record Props := mkProps {
  inProp : option bool;
  timeout : nat;
  onExited : option callback
}.

(** One rendered [Ripple].  [handleExited] is [ref.current] of
    [useEventCallback(onExited)]; [cleanup] is the timer id the cleanup
    returned by the last run of the effect will clear, [None] when that
    run returned [undefined]; [timers] are the live timers with their
    delays, each of which calls [handleExited]; [exits] records, call by
    call, the [onExited] that [handleExited] reached. *)
Record Instance := mkInstance {
  props : Props;
  leaving : bool;
  handleExited : option callback;
  cleanup : option nat;
  timers : list (nat * nat);
  nextId : nat;
  mounted : bool;
  exits : list (option callback)
}.

Definition falsy (v : option bool) : bool :=
  match v with
  | Some b => negb b
  | None => true
  end.

(** [Object.is] on the two dependencies that can change, [inProp] and
    [timeout] ([handleExited] is the same function on every render). *)
Definition sameDeps (p q : Props) : bool :=
  match inProp p, inProp q with
  | Some a, Some b => Bool.eqb a b
  | None, None => true
  | _, _ => false
  end && (timeout p =? timeout q).

Definition clearTimeout (id : option nat) (l : list (nat * nat))
  : list (nat * nat) :=
  match id with
  | Some i => filter (fun t => negb (fst t =? i)) l
  | None => l
  end.

(** The body of the effect:
    [if (!inProp) { setLeaving(true); timeoutId = setTimeout(handleExited,
    timeout); return () => clearTimeout(timeoutId); } return undefined]. *)
Definition effect (i : Instance) : Instance :=
  if falsy (inProp (props i)) then
    mkInstance (props i) true (handleExited i) (Some (nextId i))
      (timers i ++ [(nextId i, timeout (props i))]) (S (nextId i))
      (mounted i) (exits i)
  else
    mkInstance (props i) (leaving i) (handleExited i) None
      (timers i) (nextId i) (mounted i) (exits i).

(** The cleanup of the previous run of the effect. *)
Definition runCleanup (i : Instance) : Instance :=
  mkInstance (props i) (leaving i) (handleExited i) None
    (clearTimeout (cleanup i) (timers i)) (nextId i) (mounted i) (exits i).

(** The first render and its effects: [useState(false)],
    [useRef(onExited)], then the effect. *)
Definition mount (p : Props) : Instance :=
  effect (mkInstance p false (onExited p) None [] 1 true []).

(** A render with new props and its effects: [useEventCallback] stores
    the new [onExited]; the effect runs again, after its cleanup, only
    when a dependency changed. *)
Definition update (p : Props) (i : Instance) : Instance :=
  if mounted i then
    let changed := negb (sameDeps (props i) p) in
    let i1 := if changed then runCleanup i else i in
    let i2 := mkInstance p (leaving i1) (onExited p) (cleanup i1)
                (timers i1) (nextId i1) (mounted i1) (exits i1) in
    if changed then effect i2 else i2
  else i.

(** Unmounting runs the cleanup. *)
Definition unmount (i : Instance) : Instance :=
  if mounted i then
    let i1 := runCleanup i in
    mkInstance (props i1) (leaving i1) (handleExited i1) (cleanup i1)
      (timers i1) (nextId i1) false (exits i1)
  else i.

(** A live timer fires: [handleExited()] calls the [onExited] stored by
    the latest render. *)
Definition fire (id : nat) (i : Instance) : Instance :=
  if existsb (fun t => fst t =? id) (timers i) then
    mkInstance (props i) (leaving i) (handleExited i) (cleanup i)
      (filter (fun t => negb (fst t =? id)) (timers i)) (nextId i)
      (mounted i) (exits i ++ [handleExited i])
  else i.

Inductive Step :=
| Update (p : Props)
| Fire (id : nat)
| Unmount.

Definition step (i : Instance) (a : Step) : Instance :=
  match a with
  | Update p => update p i
  | Fire id => fire id i
  | Unmount => unmount i
  end.

Definition run (i : Instance) (steps : list Step) : Instance :=
  fold_left step steps i.

(** The timer, the props and the refs agree. *)
Record sound (i : Instance) : Prop := mkSound {
  latest : handleExited i = onExited (props i);
  single : timers i = []
           \/ cleanup i = Some (fst (hd (0, 0) (timers i)))
              /\ timers i = [(fst (hd (0, 0) (timers i)), timeout (props i))];
  exiting : timers i <> [] ->
            mounted i = true /\ falsy (inProp (props i)) = true
            /\ leaving i = true
}.

(** A step that leaves [inProp] and [timeout] as they are. *)
Definition keeps (i : Instance) (a : Step) : Prop :=
  match a with
  | Update p => sameDeps (props i) p = true
  | Fire _ => True
  | Unmount => False
  end.

(** A run of such steps. *)
Fixpoint keeping (i : Instance) (steps : list Step) : Prop :=
  match steps with
  | [] => True
  | a :: rest => keeps i a /\ keeping (step i a) rest
  end.

End Exit.

(* ================================================================== *)
(** ** [ButtonBase]: the handlers that drive the ripple *)
(* ================================================================== *)

Module Button.

Local Open Scope nat_scope.

(** The [component] prop: a tag name or a component type. *)
Inductive ElementType :=
| Tag (name : string)
| ComponentType.

Definition truthyType (c : ElementType) : bool :=
  match c with
  | Tag name => negb (String.eqb name EmptyString)
  | ComponentType => true
  end.

Definition isTag (c : ElementType) (name : string) : bool :=
  match c with
  | Tag n => String.eqb n name
  | ComponentType => false
  end.

(** The handler props of the host.  A host handler is code the
    component does not know; what the component can see of it is
    whether it called [event.preventDefault()]. *)
Inductive HostProp :=
| onBlur | onClick | onContextMenu | onDragLeave | onFocus | onFocusVisible
| onKeyDown | onKeyUp | onMouseDown | onMouseLeave | onMouseUp
| onTouchEnd | onTouchMove | onTouchStart.

Record HostHandler := mkHost { preventsDefault : bool }.

(** The props the handlers read, and [focusVisible], the state as the
    render that built the handlers saw it. *)
Record Closure := mkClosure {
  component : ElementType;
  disabled : bool;
  disableTouchRipple : bool;
  focusRipple : bool;
  host : HostProp -> option HostHandler;
  focusVisible : bool
}.

(** The element behind [buttonRef]. *)
Record ButtonElement := mkButton {
  tagName : string;
  href : bool
}.

(** The fields of a React event the handlers read, with the event as
    the ripple engine reads it. *)
Record DomEvent := mkDomEvent {
  native : Event;
  key : option string;
  onTarget : bool;               (* event.target === event.currentTarget *)
  defaultPrevented : bool;
  target : FocusVisible.Node;
  currentTarget : ButtonElement
}.

Definition preventDefault (e : DomEvent) : DomEvent :=
  mkDomEvent (native e) (key e) (onTarget e) true (target e) (currentTarget e).

(** The two callbacks the key handlers give to [stop]:
    [() => rippleRef.current.start(event)] and
    [() => rippleRef.current.pulsate(event)]. *)
Inductive Continuation :=
| StartAgain (event : Event)
| PulsateAgain (event : Event).

(** What the handlers can change: the refs, the module state of
    [useIsFocusVisible], the ripple engine behind [rippleRef] ([None]
    while no [TouchRipple] is rendered), the continuations created so
    far (a callback given to the engine is its position in this list),
    and two records of what was called: host handlers, and
    [setFocusVisible] with its argument. *)
Record Refs := mkRefs {
  keydownRef : bool;
  buttonRef : option ButtonElement;
  isFocusVisibleRef : bool;
  rippleRef : option Engine;
  globals : FocusVisible.Globals;
  continuations : list Continuation;
  hostCalls : list HostProp;
  setFocusVisible : list bool
}.

Definition set_keydownRef v (r : Refs) :=
  mkRefs v (buttonRef r) (isFocusVisibleRef r) (rippleRef r) (globals r)
    (continuations r) (hostCalls r) (setFocusVisible r).
Definition set_buttonRef v (r : Refs) :=
  mkRefs (keydownRef r) v (isFocusVisibleRef r) (rippleRef r) (globals r)
    (continuations r) (hostCalls r) (setFocusVisible r).
Definition set_focusRef v g (r : Refs) :=
  mkRefs (keydownRef r) (buttonRef r) v (rippleRef r) g
    (continuations r) (hostCalls r) (setFocusVisible r).
Definition set_rippleRef v (r : Refs) :=
  mkRefs (keydownRef r) (buttonRef r) (isFocusVisibleRef r) v (globals r)
    (continuations r) (hostCalls r) (setFocusVisible r).
Definition set_continuations v (r : Refs) :=
  mkRefs (keydownRef r) (buttonRef r) (isFocusVisibleRef r) (rippleRef r)
    (globals r) v (hostCalls r) (setFocusVisible r).
Definition set_hostCalls v (r : Refs) :=
  mkRefs (keydownRef r) (buttonRef r) (isFocusVisibleRef r) (rippleRef r)
    (globals r) (continuations r) v (setFocusVisible r).
Definition call_setFocusVisible v (r : Refs) :=
  mkRefs (keydownRef r) (buttonRef r) (isFocusVisibleRef r) (rippleRef r)
    (globals r) (continuations r) (hostCalls r) (setFocusVisible r ++ [v]).

(** [if (handler) { handler(event); }] *)
Definition callHost (c : Closure) (name : HostProp) (st : DomEvent * Refs)
  : DomEvent * Refs :=
  let '(e, r) := st in
  match host c name with
  | Some h =>
      (if preventsDefault h then preventDefault e else e,
       set_hostCalls (hostCalls r ++ [name]) r)
  | None => st
  end.

Definition noOptions : Options := mkOptions None None None.

(** [rippleRef.current[rippleAction](event)] *)
Inductive RippleAction := Start | Stop.

Definition callRipple (a : RippleAction) (e : DomEvent) (s : Engine) : Engine :=
  match a with
  | Start => engineOf (start (native e) noOptions None s)
  | Stop => stop (native e) None s
  end.

(** The handler [useRippleHandler(rippleAction, eventCallback,
    skipRippleAction)] returns. *)
Definition rippleHandler (a : RippleAction)
  (eventCallback : option (DomEvent * Refs -> DomEvent * Refs))
  (skipRippleAction : bool) (st : DomEvent * Refs) : DomEvent * Refs :=
  let '(e, r) :=
    match eventCallback with
    | Some f => f st
    | None => st
    end in
  if negb skipRippleAction then
    match rippleRef r with
    | Some s => (e, set_rippleRef (Some (callRipple a e s)) r)
    | None => (e, r)
    end
  else (e, r).

(** A host prop as [eventCallback]: absent when the host gave none. *)
Definition hostCallback (c : Closure) (name : HostProp)
  : option (DomEvent * Refs -> DomEvent * Refs) :=
  match host c name with
  | Some _ => Some (callHost c name)
  | None => None
  end.

Definition handleMouseDown (c : Closure) :=
  rippleHandler Start (hostCallback c onMouseDown) (disableTouchRipple c).
Definition handleContextMenu (c : Closure) :=
  rippleHandler Stop (hostCallback c onContextMenu) (disableTouchRipple c).
Definition handleDragLeave (c : Closure) :=
  rippleHandler Stop (hostCallback c onDragLeave) (disableTouchRipple c).
Definition handleMouseUp (c : Closure) :=
  rippleHandler Stop (hostCallback c onMouseUp) (disableTouchRipple c).
Definition handleMouseLeave (c : Closure) :=
  rippleHandler Stop
    (Some (fun st =>
             let '(e, r) := st in
             callHost c onMouseLeave
               (if focusVisible c then preventDefault e else e, r)))
    (disableTouchRipple c).
Definition handleTouchStart (c : Closure) :=
  rippleHandler Start (hostCallback c onTouchStart) (disableTouchRipple c).
Definition handleTouchEnd (c : Closure) :=
  rippleHandler Stop (hostCallback c onTouchEnd) (disableTouchRipple c).
Definition handleTouchMove (c : Closure) :=
  rippleHandler Stop (hostCallback c onTouchMove) (disableTouchRipple c).

(** [handleBlur]: its ripple action is never skipped. *)
Definition handleBlur (c : Closure) :=
  rippleHandler Stop
    (Some (fun st =>
             let '(e, r) := st in
             let '(_, ref, g) :=
               FocusVisible.handleBlurVisible (isFocusVisibleRef r)
                 (globals r) in
             let r1 := set_focusRef ref g r in
             let r2 := if negb (isFocusVisibleRef r1)
                       then call_setFocusVisible false r1 else r1 in
             callHost c onBlur (e, r2)))
    false.

(** [handleFocus] *)
Definition handleFocus (c : Closure) (st : DomEvent * Refs)
  : DomEvent * Refs :=
  let '(e, r) := st in
  let r0 := match buttonRef r with
            | Some _ => r
            | None => set_buttonRef (Some (currentTarget e)) r
            end in
  let '(_, ref, g) :=
    FocusVisible.handleFocusVisible (target e) (isFocusVisibleRef r0)
      (globals r0) in
  let r1 := set_focusRef ref g r0 in
  let st2 :=
    if isFocusVisibleRef r1
    then callHost c onFocusVisible (e, call_setFocusVisible true r1)
    else (e, r1) in
  callHost c onFocus st2.

(** [isNonNativeButton()]; [None] when [buttonRef.current] is [null]
    where its [tagName] is read, which throws. *)
Definition isNonNativeButton (c : Closure) (r : Refs) : option bool :=
  if truthyType (component c) && negb (isTag (component c) "button") then
    match buttonRef r with
    | Some b => Some (negb (String.eqb (tagName b) "A" && href b))
    | None => None
    end
  else Some false.

(** [event.target === event.currentTarget && isNonNativeButton()] *)
Definition ownNonNative (c : Closure) (e : DomEvent) (r : Refs)
  : option bool :=
  if onTarget e then isNonNativeButton c r else Some false.

(** A handler returns, or throws with what it had done so far. *)
Inductive Result :=
| Done (st : DomEvent * Refs)
| Thrown (st : DomEvent * Refs).

Definition stateOf (res : Result) : DomEvent * Refs :=
  match res with
  | Done st => st
  | Thrown st => st
  end.

Definition keyIs (e : DomEvent) (name : string) : bool :=
  match key e with
  | Some k => String.eqb k name
  | None => false
  end.

(** Giving the engine a continuation: it is stored under a new number
    and that number is the callback. *)
Definition stopThen (k : Continuation) (e : DomEvent) (r : Refs) : Refs :=
  match rippleRef r with
  | Some s =>
      set_rippleRef
        (Some (stop (native e) (Some (List.length (continuations r))) s))
        (set_continuations (continuations r ++ [k]) r)
  | None => r
  end.

(** [handleKeyDown] *)
Definition handleKeyDown (c : Closure) (st : DomEvent * Refs) : Result :=
  let '(e, r) := st in
  let r1 :=
    if focusRipple c && negb (keydownRef r) && focusVisible c
       && isSome (rippleRef r) && keyIs e " "
    then stopThen (StartAgain (native e)) e (set_keydownRef true r)
    else r in
  match ownNonNative c e r1 with
  | None => Thrown (e, r1)
  | Some own1 =>
      let e1 := if own1 && keyIs e " " then preventDefault e else e in
      let '(e2, r2) := callHost c onKeyDown (e1, r1) in
      match ownNonNative c e2 r2 with
      | None => Thrown (e2, r2)
      | Some own2 =>
          if own2 && keyIs e2 "Enter" && negb (disabled c)
          then Done (callHost c onClick (preventDefault e2, r2))
          else Done (e2, r2)
      end
  end.

(** [handleKeyUp] *)
Definition handleKeyUp (c : Closure) (st : DomEvent * Refs) : Result :=
  let '(e, r) := st in
  let r1 :=
    if focusRipple c && keyIs e " " && isSome (rippleRef r)
       && focusVisible c && negb (defaultPrevented e)
    then stopThen (PulsateAgain (native e)) e (set_keydownRef false r)
    else r in
  let '(e2, r2) := callHost c onKeyUp (e, r1) in
  if isSome (host c onClick) && onTarget e2 then
    match isNonNativeButton c r2 with
    | None => Thrown (e2, r2)
    | Some own =>
        if own && keyIs e2 " " && negb (defaultPrevented e2)
        then Done (callHost c onClick (e2, r2))
        else Done (e2, r2)
    end
  else Done (e2, r2).

(** Running a callback of the engine: a continuation of the key
    handlers calls the engine again ([pulsate] drops the event it is
    given); any other callback belongs to someone else. *)
Definition invoke (ks : list Continuation) (cb : callback) (s : Engine)
  : Engine :=
  match nth_error ks cb with
  | Some (StartAgain event) => engineOf (start event noOptions None s)
  | Some (PulsateAgain _) => engineOf (pulsate s)
  | None => s
  end.

(** The engine's effect and render with its callback run:
    [rippleCallback.current(); rippleCallback.current = null]. *)
Definition rippleCallbackEffectWith (ks : list Continuation) (s : Engine)
  : Engine :=
  match rippleCallback s with
  | Some cb =>
      set_rippleCallback None
        (invoke ks cb (set_log (log s ++ [Called cb]) s))
  | None => s
  end.

Definition renderWith (ks : list Continuation) (s : Engine) : Engine :=
  let '(new, changed) := runUpdates (nextKey s) (updates s) (ripples s) in
  let s1 := set_updates [] s in
  if changed then
    rippleCallbackEffectWith ks
      (set_log (log s1 ++ [Rendered new]) (set_ripples new s1))
  else s1.

(** React renders the [TouchRipple] under the button. *)
Definition renderRipple (r : Refs) : Refs :=
  match rippleRef r with
  | Some s => set_rippleRef (Some (renderWith (continuations r) s)) r
  | None => r
  end.

(** The shapes the ripple under the button will show. *)
Definition rippleShapes (r : Refs) : list Shape :=
  match rippleRef r with
  | Some s => shapes s
  | None => []
  end.

(** The key handlers may reach the ripple. *)
Definition rippling (c : Closure) : bool :=
  focusRipple c && focusVisible c.

(** A key event for [key], not yet prevented, as the engine reads it:
    no coordinates and no touches. *)
Definition plainKey (e : DomEvent) : Prop :=
  touches (native e) = None
  /\ typeIs (native e) "touchstart" = false
  /\ typeIs (native e) "touchend" = false
  /\ typeIs (native e) "mousedown" = false.

End Button.

(** Sample values for the button. *)
Module ButtonSample.

Definition noHost : Button.HostProp -> option Button.HostHandler :=
  fun _ => None.

(** A focus-visible native button with the default props. *)
Definition closure : Button.Closure :=
  Button.mkClosure (Button.Tag "button") false false true noHost true.

(** A focus-visible [div] used as a button, with an [onClick]. *)
Definition divClosure : Button.Closure :=
  Button.mkClosure (Button.Tag "div") false false true
    (fun name =>
       match name with
       | Button.onClick => Some (Button.mkHost false)
       | _ => None
       end)
    true.

Definition element : Button.ButtonElement := Button.mkButton "BUTTON" false.
Definition divElement : Button.ButtonElement := Button.mkButton "DIV" false.

Definition node : FocusVisible.Node :=
  FocusVisible.mkNode (Some "submit"%string) "BUTTON" false false None.

Definition keyEvent (type key : string) : Button.DomEvent :=
  Button.mkDomEvent (mkEvent (Some type) (mkPoint None None) None)
    (Some key) true false node element.

(** The engine of a focused button: one pulsating ripple. *)
Definition focused : Engine :=
  run Sample.mounted [DoPulsate; DoRender].

Definition refs : Button.Refs :=
  Button.mkRefs false (Some element) true (Some focused)
    FocusVisible.loaded [] [] [].

Definition divRefs : Button.Refs :=
  Button.mkRefs false (Some divElement) true (Some focused)
    FocusVisible.loaded [] [] [].

End ButtonSample.

(** Counting the calls of the host's [onClick] made so far. *)
Module Clicks.

Local Open Scope nat_scope.

Definition isClick (name : Button.HostProp) : bool :=
  match name with
  | Button.onClick => true
  | _ => false
  end.

Definition clicks (r : Button.Refs) : nat :=
  List.length (filter isClick (Button.hostCalls r)).

(** [component && component !== "button" && !(button.tagName === "A" &&
    button.href)] for the element [b] behind [buttonRef]. *)
Definition nonNative (c : Button.Closure) (b : Button.ButtonElement) : bool :=
  Button.truthyType (Button.component c)
  && negb (Button.isTag (Button.component c) "button")
  && negb (String.eqb (Button.tagName b) "A" && Button.href b).

(** The host's handler for [name], if any, calls [preventDefault]. *)
Definition hostPrevents (c : Button.Closure) (name : Button.HostProp) : bool :=
  match Button.host c name with
  | Some h => Button.preventsDefault h
  | None => false
  end.

End Clicks.

(* ================================================================== *)
(** ** Basic facts *)
(* ================================================================== *)

Lemma runUpdates_app key us u old :
  runUpdates key (us ++ [u]) old =
  let '(mid, c1) := runUpdates key us old in
  let '(new, c2) := runUpdater key u mid in
  (new, c1 || c2).
Proof.
  revert old.
  induction us as [|u0 us IH]; intros old; simpl.
  - destruct (runUpdater key u old) as [new c]. now rewrite orb_false_r.
  - destruct (runUpdater key u0 old) as [mid0 c0].
    rewrite IH.
    destruct (runUpdates key us mid0) as [mid c1].
    destruct (runUpdater key u mid) as [new c2].
    now rewrite orb_assoc.
Qed.

Lemma startTimerCommit_clearTimeout id s :
  startTimerCommit (clearTimeout id s) = startTimerCommit s.
Proof. now destruct id. Qed.

(** Outside the force-fire branch [stop] is its last four statements. *)
Lemma stop_plain event cb s :
  forceFire event s = false ->
  stop event cb s =
  set_rippleCallback cb
    (setRipples DropFirst
       (set_startTimerCommit None (clearTimeout (startTimer s) s))).
Proof.
  unfold forceFire, stop. intros H.
  rewrite startTimerCommit_clearTimeout.
  destruct (typeIs event "touchend"); [|reflexivity].
  destruct (startTimerCommit s); [discriminate|reflexivity].
Qed.

(** In the force-fire branch it commits, clears and re-arms. *)
Lemma stop_forced event cb s params :
  typeIs event "touchend" = true ->
  startTimerCommit s = Some params ->
  let s0 := clearTimeout (startTimer s) s in
  stop event cb s =
  set_startTimer (Some (nextTimer s))
    (set_nextTimer (S (nextTimer s))
       (set_timers (timers s0 ++ [mkTimer (nextTimer s) 0 (RunStop event cb)])
          (set_startTimerCommit None (startCommit params s0)))).
Proof.
  intros Ht Hc. unfold stop.
  rewrite startTimerCommit_clearTimeout, Ht, Hc.
  destruct (startTimer s); reflexivity.
Qed.

(** Updaters that build no new array leave the array as it was. *)
Lemma runUpdates_same key us old :
  snd (runUpdates key us old) = false ->
  fst (runUpdates key us old) = old.
Proof.
  revert old.
  induction us as [|u us IH]; intros old; simpl; auto.
  destruct u; simpl.
  - destruct (runUpdates key us _); simpl. discriminate.
  - destruct old as [|r rest]; simpl.
    + specialize (IH []). destruct (runUpdates key us []); simpl in *. auto.
    + destruct (runUpdates key us rest); simpl. discriminate.
Qed.

Lemma render_ripples s :
  ripples (render s) = pendingRipples s.
Proof.
  unfold render, pendingRipples.
  pose proof (runUpdates_same (nextKey s) (updates s) (ripples s)) as H.
  destruct (runUpdates (nextKey s) (updates s) (ripples s)) as [new changed].
  destruct changed; simpl in *.
  - unfold rippleCallbackEffect; simpl.
    now destruct (rippleCallback s).
  - symmetry. now apply H.
Qed.

Lemma elementOf_noteTouchStart event options s :
  elementOf (noteTouchStart event s) options = elementOf s options.
Proof.
  unfold noteTouchStart, elementOf.
  now destruct (typeIs event "touchstart"), (orFalse (opt_fakeElement options)).
Qed.

(** [start] past its flag handling, in one equation. *)
Lemma start_unsuppressed event options cb s rx ry :
  suppressed event s = false ->
  ripplePosition (centerOf s options) event (rectOf (elementOf s options))
  = Some (rx, ry) ->
  start event options cb s =
  Returned
    (commitOrDefer event
       (mkParams (pulsateOf options) rx ry
          (rippleSizeOf (centerOf s options) (elementOf s options)
             (rectOf (elementOf s options)) rx ry) cb)
       (noteTouchStart event s)).
Proof.
  intros Hs Hp. unfold start.
  rewrite Hs, elementOf_noteTouchStart, Hp. reflexivity.
Qed.

(** With the [center] option on, both [if]s of the geometry block take
    their first branch. *)
Lemma start_center_option event options cb s :
  suppressed event s = false ->
  centerOf s options = true ->
  start event options cb s =
  Returned
    (commitOrDefer event
       (centredParams options cb (rectOf (elementOf s options)))
       (noteTouchStart event s)).
Proof.
  intros Hs Hc.
  rewrite (start_unsuppressed event options cb s
             (JS.round (width (rectOf (elementOf s options)) / 2))
             (JS.round (height (rectOf (elementOf s options)) / 2)) Hs).
  - rewrite Hc. reflexivity.
  - unfold ripplePosition, centered. rewrite Hc. reflexivity.
Qed.

(** What a render adds to the log and leaves in the callback slot. *)
Lemma render_log s :
  log (render s) =
  log s ++ (if changes s
            then Rendered (pendingRipples s) :: delivery (rippleCallback s)
            else []).
Proof.
  unfold render, changes, pendingRipples.
  destruct (runUpdates (nextKey s) (updates s) (ripples s)) as [new changed].
  destruct changed; simpl.
  - unfold rippleCallbackEffect; simpl.
    destruct (rippleCallback s); simpl; [|reflexivity].
    now rewrite <- app_assoc.
  - now rewrite app_nil_r.
Qed.

Lemma render_rippleCallback s :
  rippleCallback (render s) = if changes s then None else rippleCallback s.
Proof.
  unfold render, changes.
  destruct (runUpdates (nextKey s) (updates s) (ripples s)) as [new changed].
  destruct changed; simpl; [|reflexivity].
  unfold rippleCallbackEffect; simpl.
  destruct (rippleCallback s) eqn:E; simpl; auto.
Qed.

Lemma render_updates s : updates (render s) = [].
Proof.
  unfold render.
  destruct (runUpdates (nextKey s) (updates s) (ripples s)) as [new changed].
  destruct changed; simpl; [|reflexivity].
  unfold rippleCallbackEffect; simpl.
  now destruct (rippleCallback s).
Qed.


(* ================================================================== *)
(** ** The timer table stays consistent *)
(* ================================================================== *)

Lemma filter_filter_swap {A} (f g : A -> bool) l :
  filter f (filter g l) = filter g (filter f l).
Proof.
  induction l as [|a l IH]; simpl; auto.
  destruct (g a) eqn:G, (f a) eqn:F; simpl; rewrite ?G, ?F, IH; reflexivity.
Qed.

Lemma NoDup_map_filter {A B} (f : A -> B) (g : A -> bool) l :
  NoDup (map f l) -> NoDup (map f (filter g l)).
Proof.
  induction l as [|a l IH]; simpl; intros H; auto.
  inversion_clear H as [|? ? Hn Hd].
  destruct (g a); simpl; auto.
  constructor; auto.
  intros Hin. apply Hn.
  apply in_map_iff in Hin as (b & Hb & Hin).
  apply filter_In in Hin as [Hin _].
  apply in_map_iff. eauto.
Qed.

Lemma NoDup_map_inj {A B} (f : A -> B) l a b :
  NoDup (map f l) -> In a l -> In b l -> f a = f b -> a = b.
Proof.
  induction l as [|x l IH]; simpl; intros H Ha Hb E; [tauto|].
  inversion_clear H as [|? ? Hn Hd].
  destruct Ha as [->|Ha], Hb as [->|Hb]; auto.
  - exfalso. apply Hn. rewrite E. now apply in_map.
  - exfalso. apply Hn. rewrite <- E. now apply in_map.
Qed.

Lemma Forall_filter_keep {A} (P : A -> Prop) (g : A -> bool) l :
  Forall P l -> Forall P (filter g l).
Proof.
  rewrite !Forall_forall. intros H x Hx.
  apply filter_In in Hx as [Hx _]. auto.
Qed.

(** Consistency only looks at the timer table and the two timer refs. *)
Lemma consistent_ext s s' :
  timers s' = timers s ->
  nextTimer s' = nextTimer s ->
  startTimer s' = startTimer s ->
  startTimerCommit s' = startTimerCommit s ->
  consistent s -> consistent s'.
Proof.
  intros Ht Hn Hs Hc [F U D].
  constructor; unfold deferredCommits in *; rewrite ?Ht, ?Hn, ?Hs, ?Hc; auto.
Qed.

Lemma consistent_mount center el : consistent (mount center el).
Proof.
  constructor; simpl; auto using NoDup_nil.
Qed.

Lemma consistent_render s : consistent s -> consistent (render s).
Proof.
  apply consistent_ext; unfold render;
    destruct (runUpdates (nextKey s) (updates s) (ripples s)) as [new [|]];
    simpl; auto;
    unfold rippleCallbackEffect; simpl; destruct (rippleCallback s); auto.
Qed.

Lemma consistent_startCommit params s :
  consistent s -> consistent (startCommit params s).
Proof. apply consistent_ext; reflexivity. Qed.

Lemma consistent_noteTouchStart event s :
  consistent s -> consistent (noteTouchStart event s).
Proof.
  apply consistent_ext; unfold noteTouchStart;
    destruct (typeIs event "touchstart"); reflexivity.
Qed.

(** Arming a timer on a consistent table: the new id is not in use. *)
Lemma fresh_not_in s :
  Forall (fun t => (tm_id t < nextTimer s)%nat) (timers s) ->
  ~ In (nextTimer s) (map tm_id (timers s)).
Proof.
  intros F Hin.
  apply in_map_iff in Hin as (t & E & Hin).
  rewrite Forall_forall in F. specialize (F t Hin). lia.
Qed.

Lemma fresh_after_arm s t :
  tm_id t = nextTimer s ->
  Forall (fun t' => (tm_id t' < nextTimer s)%nat) (timers s) ->
  Forall (fun t' => (tm_id t' < S (nextTimer s))%nat) (timers s ++ [t]).
Proof.
  intros E F. apply Forall_app. split.
  - eapply Forall_impl; [|exact F]. simpl. intros; lia.
  - constructor; [lia|constructor].
Qed.

Lemma NoDup_snoc {A} (x : A) l :
  ~ In x l -> NoDup l -> NoDup (l ++ [x]).
Proof.
  induction l as [|a l IH]; simpl; intros Hx H.
  - constructor; auto.
  - inversion_clear H as [|? ? Hn Hd].
    constructor; [|apply IH; tauto].
    intros Hin. apply in_app_or in Hin as [Hin|[->|[]]]; tauto.
Qed.

Lemma unique_after_arm s t :
  tm_id t = nextTimer s ->
  Forall (fun t' => (tm_id t' < nextTimer s)%nat) (timers s) ->
  NoDup (map tm_id (timers s)) ->
  NoDup (map tm_id (timers s ++ [t])).
Proof.
  intros E F U.
  rewrite map_app. simpl.
  apply NoDup_snoc; auto.
  rewrite E. now apply fresh_not_in.
Qed.

Lemma consistent_commitOrDefer event params s :
  consistent s -> consistent (commitOrDefer event params s).
Proof.
  intros H. unfold commitOrDefer.
  destruct (touches event); [|now apply consistent_startCommit].
  destruct (startTimerCommit s) eqn:E; auto.
  destruct H as [F U D]. rewrite E in D.
  unfold deferCommit. constructor; simpl.
  - now apply fresh_after_arm.
  - now apply unique_after_arm.
  - exists (nextTimer s). split; auto.
    unfold deferredCommits in *. simpl.
    rewrite filter_app, D. reflexivity.
Qed.

Lemma consistent_start event options cb s :
  consistent s -> consistent (engineOf (start event options cb s)).
Proof.
  intros H. unfold start.
  destruct (suppressed event s).
  - simpl. revert H. apply consistent_ext; reflexivity.
  - destruct (ripplePosition _ _ _) as [[rx ry]|]; simpl.
    + apply consistent_commitOrDefer. now apply consistent_noteTouchStart.
    + now apply consistent_noteTouchStart.
Qed.

(** [clearTimeout(startTimer.current)] drops the deferred commit, if
    there is one. *)
Lemma cleared s :
  consistent s ->
  let s0 := clearTimeout (startTimer s) s in
  Forall (fun t => (tm_id t < nextTimer s)%nat) (timers s0)
  /\ NoDup (map tm_id (timers s0))
  /\ deferredCommits s0 = [].
Proof.
  intros [F U D]. simpl.
  destruct (startTimer s) as [i|] eqn:E; simpl.
  - split; [now apply Forall_filter_keep|].
    split; [now apply NoDup_map_filter|].
    unfold deferredCommits in *. simpl.
    rewrite filter_filter_swap.
    destruct (startTimerCommit s).
    + destruct D as (id & Hid & D). injection Hid as <-.
      rewrite D. simpl. now rewrite Nat.eqb_refl.
    + now rewrite D.
  - repeat split; auto.
    destruct (startTimerCommit s); auto.
    destruct D as (id & Hid & _). discriminate.
Qed.

Lemma consistent_stop event cb s :
  consistent s -> consistent (stop event cb s).
Proof.
  intros H. destruct (cleared s H) as (F & U & D).
  destruct (forceFire event s) eqn:FF.
  - unfold forceFire in FF. apply andb_true_iff in FF as [Ht Hc].
    destruct (startTimerCommit s) as [params|] eqn:E; [|discriminate].
    rewrite (stop_forced event cb s params Ht E).
    assert (Hn : nextTimer (clearTimeout (startTimer s) s) = nextTimer s)
      by now destruct (startTimer s).
    constructor; simpl.
    + rewrite <- Hn. apply fresh_after_arm; auto. now rewrite Hn.
    + rewrite <- Hn in F. apply unique_after_arm; auto.
    + unfold deferredCommits in *. simpl. rewrite filter_app, D. reflexivity.
  - rewrite (stop_plain event cb s FF).
    constructor; simpl; auto.
    eapply Forall_impl; [|exact F].
    destruct (startTimer s); auto.
Qed.

Lemma consistent_fire id s :
  consistent s -> consistent (fire id s).
Proof.
  intros H. unfold fire, findTimer.
  destruct (find _ (timers s)) as [t|] eqn:Ef; auto.
  apply find_some in Ef as [Hin Hid]. apply Nat.eqb_eq in Hid.
  destruct H as [F U D].
  set (s1 := set_timers
               (filter (fun t' => negb (tm_id t' =? id)%nat) (timers s)) s).
  assert (F1 : Forall (fun t' => (tm_id t' < nextTimer s1)%nat) (timers s1))
    by (simpl; now apply Forall_filter_keep).
  assert (U1 : NoDup (map tm_id (timers s1)))
    by (simpl; now apply NoDup_map_filter).
  assert (D1 : deferredCommits s1 =
               filter (fun t' => negb (tm_id t' =? id)%nat) (deferredCommits s))
    by (unfold deferredCommits; simpl; apply filter_filter_swap).
  destruct (tm_task t) as [|event cb] eqn:Et; simpl.
  - (* the deferred commit itself *)
    change (startTimerCommit s1) with (startTimerCommit s).
    assert (Hd : In t (deferredCommits s)).
    { unfold deferredCommits. apply filter_In. split; auto.
      unfold isCommit. now rewrite Et. }
    destruct (startTimerCommit s) as [params|] eqn:E.
    + destruct D as (id' & Hs & D). rewrite D in Hd, D1.
      destruct Hd as [<-|[]]. simpl in Hid. subst id'.
      simpl in D1. rewrite Nat.eqb_refl in D1. simpl in D1.
      constructor; simpl; auto.
    + rewrite D in Hd. destruct Hd.
  - (* a stop called again *)
    apply consistent_stop.
    constructor; auto.
    change (startTimerCommit s1) with (startTimerCommit s).
    change (startTimer s1) with (startTimer s).
    rewrite D1.
    destruct (startTimerCommit s) as [params|].
    + destruct D as (id' & Hs & D). exists id'. split; auto.
      rewrite D. simpl.
      destruct (Nat.eqb_spec id' id) as [->|]; simpl; auto.
      exfalso.
      assert (Hc : In (mkTimer id DELAY_RIPPLE RunCommit) (timers s)).
      { assert (Hd : In (mkTimer id DELAY_RIPPLE RunCommit) (deferredCommits s))
          by (rewrite D; now left).
        unfold deferredCommits in Hd. now apply filter_In in Hd. }
      assert (Heq : t = mkTimer id DELAY_RIPPLE RunCommit)
        by (apply (NoDup_map_inj tm_id (timers s)); auto).
      rewrite Heq in Et. discriminate.
    + now rewrite D.
Qed.

Lemma consistent_step s a : consistent s -> consistent (step s a).
Proof.
  destruct a; simpl.
  - apply consistent_start.
  - apply consistent_stop.
  - apply consistent_start.
  - apply consistent_fire.
  - apply consistent_render.
Qed.

Lemma consistent_run acts : forall s, consistent s -> consistent (run s acts).
Proof.
  induction acts as [|a acts IH]; intros s H; simpl; auto.
  apply IH. now apply consistent_step.
Qed.

Lemma reachable_consistent s : reachable s -> consistent s.
Proof.
  intros (center & el & acts & ->).
  apply consistent_run, consistent_mount.
Qed.

Lemma reachable_step s a : reachable s -> reachable (step s a).
Proof.
  intros (center & el & acts & ->).
  exists center, el, (acts ++ [a]).
  unfold run. now rewrite fold_left_app.
Qed.

(* ================================================================== *)
(** ** [stop] removes the oldest ripple *)
(* ================================================================== *)

Lemma clearTimeout_react id s :
  ripples (clearTimeout id s) = ripples s
  /\ updates (clearTimeout id s) = updates s
  /\ nextKey (clearTimeout id s) = nextKey s
  /\ log (clearTimeout id s) = log s
  /\ rippleCallback (clearTimeout id s) = rippleCallback s.
Proof. destruct id; repeat split. Qed.

Lemma pendingRipples_stop event cb s :
  forceFire event s = false ->
  pendingRipples (stop event cb s) = tl (pendingRipples s).
Proof.
  intros FF. rewrite (stop_plain event cb s FF).
  destruct (clearTimeout_react (startTimer s) s) as (Hr & Hu & Hk & _).
  unfold pendingRipples. simpl. rewrite Hr, Hu, Hk, runUpdates_app.
  destruct (runUpdates (nextKey s) (updates s) (ripples s)) as [mid c].
  simpl. now destruct mid.
Qed.

(** C1: a [stop] that is not force-firing a deferred touch commit, called
    when the collection is [r :: rest], leaves exactly [rest]: the
    instance at index 0 is removed, every other instance stays, in the
    same order.  The removal is queued by [stop] and applied by the next
    render.  Any [stop] leaves no deferred commit behind, so the [stop]
    that a force-fire re-issues is of this kind. *)
Theorem stop_removes_index_0 event cb s r rest :
  forceFire event s = false ->
  pendingRipples s = r :: rest ->
  pendingRipples (stop event cb s) = rest
  /\ ripples (render (stop event cb s)) = rest
  /\ (forall event', forceFire event' (stop event cb s) = false).
Proof.
  intros FF Hp.
  assert (H : pendingRipples (stop event cb s) = rest)
    by (rewrite pendingRipples_stop, Hp; auto).
  split; [exact H|]. split; [now rewrite render_ripples|].
  intros event'. unfold forceFire.
  cut (startTimerCommit (stop event cb s) = None).
  { intros ->. apply andb_false_r. }
  unfold stop. rewrite startTimerCommit_clearTimeout.
  destruct (typeIs event "touchend"), (startTimerCommit s); reflexivity.
Qed.

Lemma stop_removes_index_0_witness :
  exists r rest,
    pendingRipples Sample.twoRipples = r :: rest
    /\ ripples (render (stop Sample.mouseUp None Sample.twoRipples)) = rest.
Proof.
  eexists. eexists. split.
  - vm_compute. reflexivity.
  - eapply (stop_removes_index_0 Sample.mouseUp None Sample.twoRipples).
    + reflexivity.
    + vm_compute. reflexivity.
Defined.

(* ================================================================== *)
(** ** Mouse events after a touch *)
(* ================================================================== *)

(** C2: a [mousedown] arriving while [ignoringMouseDown] is set only
    clears the flag: [start] returns the engine it was given with that
    one field changed, so no ripple is created and nothing else moves.
    A [touchstart] sets the flag, whatever [start] does afterwards. *)
Theorem start_mouse_after_touch event options cb s :
  (typeIs event "mousedown" = true ->
   ignoringMouseDown s = true ->
   start event options cb s = Returned (set_ignoringMouseDown false s))
  /\ (typeIs event "touchstart" = true ->
      ignoringMouseDown (engineOf (start event options cb s)) = true).
Proof.
  split.
  - intros Ht Hi. unfold start, suppressed. now rewrite Ht, Hi.
  - intros Ht.
    assert (Hm : typeIs event "mousedown" = false).
    { unfold typeIs in *. destruct (type event) as [t|]; auto.
      apply String.eqb_eq in Ht. now subst t. }
    unfold start, suppressed, noteTouchStart. rewrite Hm, Ht. simpl.
    destruct (ripplePosition _ _ _) as [[rx ry]|]; simpl; auto.
    unfold commitOrDefer.
    destruct (touches event); [destruct (startTimerCommit _)|];
      reflexivity.
Qed.

Lemma start_mouse_after_touch_witness :
  start (Sample.mouseDown 60 30) Sample.noOptions None Sample.touching
  = Returned (set_ignoringMouseDown false Sample.touching)
  /\ ignoringMouseDown
       (engineOf (start (Sample.touchStart 60 30) Sample.noOptions None
                    Sample.mounted)) = true.
Proof.
  split.
  - apply (start_mouse_after_touch (Sample.mouseDown 60 30)
             Sample.noOptions None Sample.touching); reflexivity.
  - apply (start_mouse_after_touch (Sample.touchStart 60 30)
             Sample.noOptions None Sample.mounted); reflexivity.
Defined.

(* ================================================================== *)
(** ** Geometry *)
(* ================================================================== *)


(** C3, as stated, fails: with [clientX = clientY = 0] and no [center]
    option the ripple is placed at the centre of the 100 by 50 sample
    box, [(50, 25)], yet [start] commits a diameter of about 114.49,
    the corner formula's [sqrt(102^2 + 52^2)], where the centred formula
    gives about 86.6. *)
Lemma centred_placement_keeps_corner_size :
  ~ centredPlacementSizesCentred
  /\ suppressed (Sample.mouseDown 0 0) Sample.mounted = false
  /\ centered (centerOf Sample.mounted Sample.noOptions)
       (Sample.mouseDown 0 0) = true
  /\ (exists size,
        start (Sample.mouseDown 0 0) Sample.noOptions None Sample.mounted
        = Returned (startCommit (mkParams false 50 25 size None) Sample.mounted)
        /\ size = JS.sqrt (JS.sq 102 + JS.sq 52)
        /\ (114.49 <? size) && (size <? 114.5) = true)
  /\ (exists size,
        centerSize (getBoundingClientRect Sample.box) = size
        /\ (86.6 <? size) && (size <? 86.61) = true).
Proof.
  split.
  - intros H.
    specialize (H (Sample.mouseDown 0 0) Sample.noOptions None Sample.mounted
                  eq_refl eq_refl).
    apply (f_equal (fun o =>
             match updates (engineOf o) with
             | [Append p] => p_rippleSize p <? 100
             | _ => false
             end)) in H.
    vm_compute in H. discriminate.
  - repeat split; try reflexivity.
    + eexists. repeat split; vm_compute; reflexivity.
    + eexists. split; vm_compute; reflexivity.
Qed.

(** C3, amended: whenever the ripple is placed at the centre of the box
    (the [center] option is on, or the event has no usable client
    coordinates) its centre is [(round(width/2), round(height/2))]; its
    diameter is [sqrt((2*width^2 + height^2)/3)], plus 1 exactly when
    that number [% 2] is [0], when the [center] option is on, and the
    corner-covering [sqrt(sizeX^2 + sizeY^2)] when it is off.  On any
    box of width 100 and height 50 with the [center] option on, the
    centre is [(50, 25)] and the diameter is [sqrt(7500)], about 86.6,
    whose remainder by 2 is not zero, so nothing is added; on a box of
    width and height 100 the square root is 100, whose remainder by 2 is
    zero, and the diameter is 101. *)
Theorem start_centred_geometry :
  (forall event options cb s,
      suppressed event s = false ->
      centered (centerOf s options) event = true ->
      let element := elementOf s options in
      let rect := rectOf element in
      let rippleX := JS.round (width rect / 2) in
      let rippleY := JS.round (height rect / 2) in
      let d := JS.sqrt ((2 * JS.sq (width rect) + JS.sq (height rect)) / 3) in
      start event options cb s =
      Returned
        (commitOrDefer event
           (mkParams (pulsateOf options) rippleX rippleY
              (if centerOf s options
               then (if JS.rem d 2 =? 0 then d + 1 else d)
               else cornerSize element rippleX rippleY)
              cb)
           (noteTouchStart event s)))
  /\ (forall event options cb s l t cw ch,
         suppressed event s = false ->
         centerOf s options = true ->
         elementOf s options = Some (mkElement (mkRect 100 50 l t) cw ch) ->
         exists d,
           start event options cb s =
           Returned
             (commitOrDefer event (mkParams (pulsateOf options) 50 25 d cb)
                (noteTouchStart event s))
           /\ d = JS.sqrt 7500
           /\ (JS.rem d 2 =? 0) = false
           /\ (86.6 <? d) && (d <? 86.61) = true)
  /\ (forall event options cb s l t cw ch,
         suppressed event s = false ->
         centerOf s options = true ->
         elementOf s options = Some (mkElement (mkRect 100 100 l t) cw ch) ->
         JS.sqrt ((2 * JS.sq 100 + JS.sq 100) / 3) = 100
         /\ (JS.rem 100 2 =? 0) = true
         /\ start event options cb s =
            Returned
              (commitOrDefer event (mkParams (pulsateOf options) 50 50 101 cb)
                 (noteTouchStart event s))).
Proof.
  split; [|split].
  - intros event options cb s Hs Hc. simpl.
    rewrite (start_unsuppressed event options cb s
               (JS.round (width (rectOf (elementOf s options)) / 2))
               (JS.round (height (rectOf (elementOf s options)) / 2)) Hs).
    + reflexivity.
    + unfold ripplePosition. now rewrite Hc.
  - intros event options cb s l t cw ch Hs Hc He.
    exists (JS.sqrt 7500).
    rewrite (start_center_option event options cb s Hs Hc), He.
    repeat split; vm_compute; reflexivity.
  - intros event options cb s l t cw ch Hs Hc He.
    rewrite (start_center_option event options cb s Hs Hc), He.
    repeat split; vm_compute; reflexivity.
Qed.

Lemma start_centred_geometry_witness :
  start (Sample.mouseDown 0 0) Sample.noOptions None Sample.mounted
  = Returned
      (startCommit
         (mkParams false 50 25 (JS.sqrt (JS.sq 102 + JS.sq 52)) None)
         Sample.mounted)
  /\ exists d,
       start (Sample.mouseDown 60 30) Sample.centerOption None Sample.mounted
       = Returned (startCommit (mkParams false 50 25 d None) Sample.mounted)
       /\ d = JS.sqrt 7500
       /\ (JS.rem d 2 =? 0) = false
       /\ (86.6 <? d) && (d <? 86.61) = true.
Proof.
  destruct start_centred_geometry as (Hall & Hbox & _). split.
  - rewrite (Hall (Sample.mouseDown 0 0) Sample.noOptions None Sample.mounted
               eq_refl eq_refl).
    vm_compute. reflexivity.
  - destruct (Hbox (Sample.mouseDown 60 30) Sample.centerOption None
                Sample.mounted 10 10 100 50 eq_refl eq_refl eq_refl)
      as (d & H1 & H2 & H3 & H4).
    exists d. repeat split; assumption.
Defined.




(** C10: with [options.pulsate] true and no [options.center], [center]
    defaults to [centerProp || options.pulsate], which is true, so
    whatever coordinates the event carries the ripple gets the centred
    position and the centred diameter. *)
Theorem pulsate_option_centres event options cb s :
  opt_pulsate options = Some true ->
  opt_center options = None ->
  suppressed event s = false ->
  let rect := rectOf (elementOf s options) in
  centerOf s options = (centerProp s || true)
  /\ centerOf s options = true
  /\ start event options cb s =
     Returned
       (commitOrDefer event
          (mkParams true
             (JS.round (width rect / 2)) (JS.round (height rect / 2))
             (centerSize rect) cb)
          (noteTouchStart event s)).
Proof.
  intros Hp Hc Hs rect.
  assert (E : centerOf s options = (centerProp s || true))
    by (unfold centerOf; now rewrite Hc, Hp).
  assert (C : centerOf s options = true)
    by (rewrite E; apply orb_true_r).
  repeat split; auto.
  rewrite (start_center_option event options cb s Hs C).
  unfold centredParams, pulsateOf. now rewrite Hp.
Qed.

Lemma pulsate_option_centres_witness :
  start (Sample.mouseDown 60 30) Sample.pulsateOption (Some 7%nat)
    Sample.mounted
  = Returned
      (startCommit (mkParams true 50 25 (JS.sqrt 7500) (Some 7%nat))
         Sample.mounted).
Proof.
  destruct (pulsate_option_centres (Sample.mouseDown 60 30)
              Sample.pulsateOption (Some 7%nat) Sample.mounted
              eq_refl eq_refl eq_refl) as (_ & _ & H).
  rewrite H. vm_compute. reflexivity.
Defined.

(* ================================================================== *)
(** ** [pulsate] *)
(* ================================================================== *)

(** C8, as stated, fails: [pulsate] declares no parameter and calls
    [start({}, { pulsate: true })] with no callback, so a callback given
    to [pulsate] is neither stored nor ever invoked, while the same
    callback given to [start] is stored and fires after the render. *)
Lemma pulsate_drops_callback :
  ~ pulsateForwardsCallback
  /\ rippleCallback (engineOf (pulsateWith (Some 7%nat) Sample.mounted)) = None
  /\ rippleCallback
       (engineOf (start emptyEvent Sample.pulsateOption (Some 7%nat)
                    Sample.mounted)) = Some 7%nat
  /\ calls (log (render (engineOf (pulsateWith (Some 7%nat) Sample.mounted))))
     = []
  /\ calls (log (render (engineOf (start emptyEvent Sample.pulsateOption
                                     (Some 7%nat) Sample.mounted))))
     = [7%nat].
Proof.
  split; [|repeat split; reflexivity].
  intros H. specialize (H (Some 7%nat) Sample.mounted).
  apply (f_equal (fun o => rippleCallback (engineOf o))) in H.
  vm_compute in H. discriminate.
Qed.

(** C8, amended: [pulsate(callback)] ignores its argument and is
    [start({}, { pulsate: true })] with no callback.  The empty event
    and the [pulsate] option force the centred position and the centred
    diameter; on an engine with no ripple and nothing queued the next
    render shows exactly one instance, flagged [pulsate], at the centre
    of the measured box, which is [(0, 0)] with diameter 1 when no
    surface is mounted. *)
Theorem pulsate_is_start_without_callback cb s :
  let rect := rectOf (container s) in
  let rippleX := JS.round (width rect / 2) in
  let rippleY := JS.round (height rect / 2) in
  pulsateWith cb s
  = start emptyEvent (mkOptions (Some true) None None) None s
  /\ pulsateWith cb s
     = Returned
         (startCommit (mkParams true rippleX rippleY (centerSize rect) None) s)
  /\ (ripples s = [] -> updates s = [] ->
      exists r,
        ripples (render (engineOf (pulsateWith cb s))) = [r]
        /\ r_pulsate r = true
        /\ r_rippleX r = rippleX
        /\ r_rippleY r = rippleY
        /\ r_rippleSize r = centerSize rect
        /\ (container s = None ->
            r_rippleX r = 0 /\ r_rippleY r = 0 /\ r_rippleSize r = 1)).
Proof.
  intros rect rippleX rippleY.
  assert (H : pulsateWith cb s =
              Returned
                (startCommit
                   (mkParams true rippleX rippleY (centerSize rect) None) s)).
  { unfold pulsateWith, pulsate.
    rewrite (start_center_option emptyEvent _ None s).
    - reflexivity.
    - reflexivity.
    - unfold centerOf. simpl. apply orb_true_r. }
  split; [reflexivity|]. split; [exact H|].
  intros Hr Hu. rewrite H, render_ripples.
  unfold pendingRipples. simpl. rewrite Hr, Hu. simpl.
  eexists. split; [reflexivity|]. simpl.
  do 4 (split; [reflexivity|]).
  intros Hn. subst rippleX rippleY rect. rewrite Hn.
  repeat split; vm_compute; reflexivity.
Qed.

Lemma pulsate_is_start_without_callback_witness :
  exists r,
    ripples (render (engineOf (pulsateWith (Some 7%nat) (mount false None))))
    = [r]
    /\ r_pulsate r = true
    /\ r_rippleX r = 0 /\ r_rippleY r = 0 /\ r_rippleSize r = 1.
Proof.
  destruct (pulsate_is_start_without_callback (Some 7%nat) (mount false None))
    as (_ & _ & H).
  destruct (H eq_refl eq_refl) as (r & H1 & H2 & _ & _ & _ & H3).
  destruct (H3 eq_refl) as (Hx & Hy & Hs).
  exists r. repeat split; assumption.
Defined.

(* ================================================================== *)
(** ** Touch deferral *)
(* ================================================================== *)

Lemma find_fresh_timer l t n :
  Forall (fun t' => (tm_id t' < n)%nat) l ->
  tm_id t = n ->
  find (fun t' => (tm_id t' =? n)%nat) (l ++ [t]) = Some t.
Proof.
  intros F E. induction l as [|a l IH]; simpl.
  - now rewrite E, Nat.eqb_refl.
  - inversion_clear F as [|? ? Ha Hl].
    destruct (Nat.eqb_spec (tm_id a) n); [lia|auto].
Qed.

Lemma filter_below l n :
  Forall (fun t' => (tm_id t' < n)%nat) l ->
  filter (fun t' => negb (tm_id t' =? n)%nat) l = l.
Proof.
  intros F. induction l as [|a l IH]; simpl; auto.
  inversion_clear F as [|? ? Ha Hl].
  destruct (Nat.eqb_spec (tm_id a) n); [lia|].
  simpl. now rewrite IH.
Qed.

Lemma filter_fresh_timer l t n :
  Forall (fun t' => (tm_id t' < n)%nat) l ->
  tm_id t = n ->
  filter (fun t' => negb (tm_id t' =? n)%nat) (l ++ [t]) = l.
Proof.
  intros F E. induction l as [|a l IH]; simpl.
  - now rewrite E, Nat.eqb_refl.
  - inversion_clear F as [|? ? Ha Hl].
    destruct (Nat.eqb_spec (tm_id a) n); [lia|].
    simpl. now rewrite IH.
Qed.

Lemma noteTouchStart_fields event s :
  ripples (noteTouchStart event s) = ripples s
  /\ updates (noteTouchStart event s) = updates s
  /\ nextKey (noteTouchStart event s) = nextKey s
  /\ rippleCallback (noteTouchStart event s) = rippleCallback s
  /\ log (noteTouchStart event s) = log s
  /\ startTimerCommit (noteTouchStart event s) = startTimerCommit s
  /\ startTimer (noteTouchStart event s) = startTimer s
  /\ timers (noteTouchStart event s) = timers s
  /\ nextTimer (noteTouchStart event s) = nextTimer s.
Proof.
  unfold noteTouchStart.
  destruct (typeIs event "touchstart"); repeat split.
Qed.

Lemma noteTouchStart_idle event s :
  ignoringMouseDown s = true -> noteTouchStart event s = s.
Proof.
  unfold noteTouchStart. intros H.
  destruct (typeIs event "touchstart"); auto.
  destruct s; simpl in *. now subst.
Qed.

(** A touch event never reaches [startCommit] inside [start]. *)
Lemma start_touch_queues_nothing event options cb s ts :
  touches event = Some ts ->
  let s' := engineOf (start event options cb s) in
  ripples s' = ripples s /\ updates s' = updates s
  /\ nextKey s' = nextKey s /\ rippleCallback s' = rippleCallback s
  /\ log s' = log s.
Proof.
  intros Ht. simpl. unfold start.
  destruct (suppressed event s); [repeat split|].
  destruct (noteTouchStart_fields event s) as (R & U & K & C & L & _).
  destruct (ripplePosition _ _ _) as [[rx ry]|]; simpl;
    [|repeat split; assumption].
  unfold commitOrDefer. rewrite Ht.
  destruct (startTimerCommit (noteTouchStart event s));
    simpl; repeat split; assumption.
Qed.

(** With a first touch point to read, [start] cannot throw. *)
Lemma ripplePosition_touch center event rect ts :
  touches event = Some ts -> ts <> [] ->
  exists rx ry, ripplePosition center event rect = Some (rx, ry).
Proof.
  intros Ht Hne. unfold ripplePosition, pointOf. rewrite Ht.
  destruct (centered center event); [eauto|].
  destruct ts as [|pt ts']; [contradiction|simpl; eauto].
Qed.

(** Firing the timer that [deferCommit] armed: the timer leaves the
    table, the stored closure runs and is cleared. *)
Lemma fire_deferCommit params s :
  consistent s ->
  fire (nextTimer s) (deferCommit params s) =
  set_startTimerCommit None
    (startCommit params (set_timers (timers s) (deferCommit params s))).
Proof.
  intros Hc. unfold fire, findTimer, deferCommit. simpl timers.
  rewrite (find_fresh_timer (timers s) _ (nextTimer s) (ids_fresh s Hc))
    by reflexivity.
  rewrite (filter_fresh_timer (timers s) _ (nextTimer s) (ids_fresh s Hc))
    by reflexivity.
  reflexivity.
Qed.

(** C5: a [start] whose event carries a touches list appends nothing
    synchronously: the array, the updater queue, [nextKey], the callback
    slot and the log are as before.  While a deferred commit is stored,
    such a [start] stores no second one and arms no timer: it leaves the
    engine as it is, except that a [touchstart] sets the mouse flag
    (already set right after a first [touchstart]).  When none is
    stored, it stores the commit closure and arms one timer of 80 units;
    firing that timer removes it from the table, runs the closure
    ([startCommit] with the stored geometry and callback) and clears it.
    In every reachable engine at most one deferred commit is live. *)
Theorem touch_start_defers event options cb s ts :
  reachable s ->
  touches event = Some ts ->
  let s' := engineOf (start event options cb s) in
  (ripples s' = ripples s /\ updates s' = updates s
   /\ nextKey s' = nextKey s /\ rippleCallback s' = rippleCallback s
   /\ log s' = log s)
  /\ (List.length (deferredCommits s') <= 1)%nat
  /\ (suppressed event s = false ->
      isSome (startTimerCommit s) = true ->
      s' = noteTouchStart event s
      /\ (ignoringMouseDown s = true -> s' = s))
  /\ (suppressed event s = false ->
      ts <> [] ->
      startTimerCommit s = None ->
      exists params id,
        start event options cb s = Returned s'
        /\ startTimerCommit s' = Some params
        /\ p_pulsate params = pulsateOf options
        /\ p_cb params = cb
        /\ startTimer s' = Some id
        /\ timers s' = timers s ++ [mkTimer id 80 RunCommit]
        /\ fire id s' =
           set_startTimerCommit None
             (startCommit params (set_timers (timers s) s'))
        /\ updates (fire id s') = updates s ++ [Append params]
        /\ startTimerCommit (fire id s') = None
        /\ timers (fire id s') = timers s).
Proof.
  intros Hr Ht s'.
  pose proof (reachable_consistent s Hr) as Hc.
  split; [exact (start_touch_queues_nothing event options cb s ts Ht)|].
  split.
  { pose proof (consistent_start event options cb s Hc) as [_ _ D].
    fold s' in D.
    destruct (startTimerCommit s').
    - destruct D as (id & _ & ->). simpl. lia.
    - rewrite D. simpl. lia. }
  destruct (noteTouchStart_fields event s)
    as (R & U & K & C & L & TC & ST & TM & NT).
  split.
  - intros Hs Hp.
    assert (E : s' = noteTouchStart event s).
    { subst s'. unfold start. rewrite Hs.
      destruct (ripplePosition _ _ _) as [[rx ry]|]; simpl; auto.
      unfold commitOrDefer. rewrite Ht, TC.
      destruct (startTimerCommit s); [reflexivity|discriminate]. }
    split; [exact E|].
    intros Hi. rewrite E. now apply noteTouchStart_idle.
  - intros Hs Hne Hn.
    destruct (ripplePosition_touch (centerOf s options) event
                (rectOf (elementOf s options)) ts Ht Hne) as (rx & ry & Hp).
    pose proof (start_unsuppressed event options cb s rx ry Hs Hp) as E.
    unfold commitOrDefer in E. rewrite Ht, TC, Hn in E.
    subst s'. rewrite E. simpl engineOf.
    eexists. exists (nextTimer s).
    pose proof (fire_deferCommit
                  (mkParams (pulsateOf options) rx ry
                     (rippleSizeOf (centerOf s options) (elementOf s options)
                        (rectOf (elementOf s options)) rx ry) cb)
                  (noteTouchStart event s)
                  (consistent_noteTouchStart event s Hc)) as Hf.
    rewrite NT, TM in Hf. rewrite Hf.
    unfold deferCommit. simpl. rewrite NT, TM, U.
    repeat split; reflexivity.
Qed.

Lemma touch_start_defers_witness :
  engineOf (start (Sample.touchStart 20 40) Sample.noOptions (Some 2%nat)
              Sample.touching) = Sample.touching
  /\ exists params id,
       let s' := engineOf (start (Sample.touchStart 60 30) Sample.noOptions
                             (Some 1%nat) Sample.mounted) in
       startTimerCommit s' = Some params
       /\ timers s' = [mkTimer id 80 RunCommit]
       /\ updates (fire id s') = [Append params]
       /\ startTimerCommit (fire id s') = None
       /\ timers (fire id s') = [].
Proof.
  assert (R0 : reachable Sample.mounted)
    by (exists false, (Some Sample.box), []; reflexivity).
  assert (R1 : reachable Sample.touching)
    by (exists false, (Some Sample.box),
          [DoStart (Sample.touchStart 60 30) Sample.noOptions (Some 1%nat)];
        reflexivity).
  split.
  - destruct (touch_start_defers (Sample.touchStart 20 40) Sample.noOptions
                (Some 2%nat) Sample.touching _ R1 eq_refl)
      as (_ & _ & H & _).
    destruct (H eq_refl eq_refl) as [_ H']. exact (H' eq_refl).
  - destruct (touch_start_defers (Sample.touchStart 60 30) Sample.noOptions
                (Some 1%nat) Sample.mounted _ R0 eq_refl)
      as (_ & _ & _ & H).
    destruct (H eq_refl) as (params & id & _ & H1 & _ & _ & _ & H2 & _ & H3 & H4 & H5);
      [discriminate|reflexivity|].
    exists params, id. simpl. repeat split; assumption.
Defined.

(** A touch event with a first touch point, met with no deferral stored:
    [start] returns having armed the deferral. *)
Lemma start_touch_arms event options cb s ts :
  suppressed event s = false ->
  touches event = Some ts -> ts <> [] ->
  startTimerCommit s = None ->
  exists params,
    start event options cb s
    = Returned (deferCommit params (noteTouchStart event s))
    /\ p_pulsate params = pulsateOf options
    /\ p_cb params = cb.
Proof.
  intros Hs Ht Hne Hn.
  destruct (ripplePosition_touch (centerOf s options) event
              (rectOf (elementOf s options)) ts Ht Hne) as (rx & ry & Hp).
  destruct (noteTouchStart_fields event s) as (_ & _ & _ & _ & _ & TC & _).
  eexists. split.
  - rewrite (start_unsuppressed event options cb s rx ry Hs Hp).
    unfold commitOrDefer. rewrite Ht, TC, Hn. reflexivity.
  - split; reflexivity.
Qed.

(* ================================================================== *)
(** ** Force-fire *)
(* ================================================================== *)

Lemma fire_found id s t :
  findTimer id s = Some t ->
  fire id s =
  runTask (tm_task t)
    (set_timers (filter (fun t' => negb (tm_id t' =? id)%nat) (timers s)) s).
Proof. unfold fire. now intros ->. Qed.

Lemma render_timers s :
  timers (render s) = timers s
  /\ startTimerCommit (render s) = startTimerCommit s
  /\ startTimer (render s) = startTimer s
  /\ nextKey (render s) = nextKey s.
Proof.
  unfold render.
  destruct (runUpdates (nextKey s) (updates s) (ripples s)) as [new [|]];
    simpl; auto.
  unfold rippleCallbackEffect; simpl.
  destruct (rippleCallback s); simpl; auto.
Qed.

Lemma pendingRipples_render s :
  pendingRipples (render s) = pendingRipples s.
Proof.
  unfold pendingRipples at 1.
  rewrite render_updates. simpl. apply render_ripples.
Qed.

(** After a forced [stop], the timer it armed is found under the id it
    stored, before and after a render, and what is left of the table
    when it fires is the table as [clearTimeout] left it. *)
Lemma forced_stop_timer event cb s params :
  consistent s ->
  typeIs event "touchend" = true ->
  startTimerCommit s = Some params ->
  let s2 := stop event cb s in
  let id := nextTimer s in
  let rest := timers (clearTimeout (startTimer s) s) in
  startTimer s2 = Some id
  /\ timers s2 = rest ++ [mkTimer id 0 (RunStop event cb)]
  /\ findTimer id s2 = Some (mkTimer id 0 (RunStop event cb))
  /\ filter (fun t' => negb (tm_id t' =? id)%nat) (timers s2) = rest.
Proof.
  intros Hc Ht Hp. simpl.
  destruct (cleared s Hc) as (F & _ & _).
  rewrite (stop_forced event cb s params Ht Hp).
  unfold findTimer. simpl.
  repeat split.
  - now apply find_fresh_timer.
  - now apply filter_fresh_timer.
Qed.

(** C6: a [stop] for a [touchend] that finds a deferred commit stored
    runs it at once ([startCommit] with the stored geometry), clears the
    stored closure and arms a timer of delay 0 whose body is
    [stop(event, cb)] with the same arguments; when that timer fires it
    is [stop] that runs, now outside the force-fire branch.  So a touch
    [start] on an engine with no ripple, followed by a [touchend] [stop]
    before the 80-unit timer fired, gives exactly one instance at the
    next render and an empty collection once the re-armed timer has
    fired, whether or not a render came in between; the deferred timer
    itself is gone. *)
Theorem touch_end_force_fires :
  (forall event cb s params,
      reachable s ->
      typeIs event "touchend" = true ->
      startTimerCommit s = Some params ->
      let s0 := clearTimeout (startTimer s) s in
      let s2 := stop event cb s in
      s2 = set_startTimer (Some (nextTimer s))
             (set_nextTimer (S (nextTimer s))
                (set_timers
                   (timers s0 ++ [mkTimer (nextTimer s) 0 (RunStop event cb)])
                   (set_startTimerCommit None (startCommit params s0))))
      /\ updates s2 = updates s ++ [Append params]
      /\ startTimerCommit s2 = None
      /\ deferredCommits s2 = []
      /\ fire (nextTimer s) s2 = stop event cb (set_timers (timers s0) s2))
  /\ (forall event options cb event' cb' s ts,
         reachable s ->
         ripples s = [] -> updates s = [] ->
         startTimerCommit s = None ->
         suppressed event s = false ->
         touches event = Some ts -> ts <> [] ->
         typeIs event' "touchend" = true ->
         let s1 := engineOf (start event options cb s) in
         let s2 := stop event' cb' s1 in
         exists id r,
           startTimer s2 = Some id
           /\ ripples s1 = [] /\ updates s1 = []
           /\ ripples (render s2) = [r]
           /\ r_pulsate r = pulsateOf options
           /\ ripples (render (fire id (render s2))) = []
           /\ ripples (render (fire id s2)) = []
           /\ timers (fire id (render s2)) = timers s).
Proof.
  split.
  - intros event cb s params Hr Ht Hp s0 s2.
    pose proof (reachable_consistent s Hr) as Hc.
    destruct (forced_stop_timer event cb s params Hc Ht Hp)
      as (_ & _ & Hf & Hrest).
    pose proof (stop_forced event cb s params Ht Hp) as E.
    fold s0 in E. fold s2 in E, Hf, Hrest. simpl in E.
    destruct (clearTimeout_react (startTimer s) s) as (_ & Hu & _).
    fold s0 in Hu.
    split; [exact E|].
    split; [rewrite E; simpl; now rewrite Hu|].
    split; [rewrite E; reflexivity|].
    split.
    + pose proof (consistent_stop event cb s Hc) as [_ _ D].
      fold s2 in D. rewrite E in D. simpl in D. rewrite E. exact D.
    + rewrite (fire_found _ _ _ Hf). simpl. now rewrite Hrest.
  - intros event options cb event' cb' s ts Hr Hrip Hupd Hn Hs Ht Hne Hte.
    pose proof (reachable_consistent s Hr) as Hc.
    destruct (start_touch_arms event options cb s ts Hs Ht Hne Hn)
      as (params & E & Hpul & _).
    destruct (noteTouchStart_fields event s)
      as (R & U & K & _ & _ & TC & ST & TM & NT).
    simpl. rewrite E. simpl engineOf.
    set (n := noteTouchStart event s) in *.
    set (s1 := deferCommit params n).
    assert (Hc1 : consistent s1).
    { pose proof (consistent_start event options cb s Hc) as H.
      now rewrite E in H. }
    assert (Hp1 : startTimerCommit s1 = Some params) by reflexivity.
    destruct (forced_stop_timer event' cb' s1 params Hc1 Hte Hp1)
      as (Hst & Htm & Hf & Hrest).
    pose proof (stop_forced event' cb' s1 params Hte Hp1) as E2.
    set (s2 := stop event' cb' s1) in *.
    assert (Hcleared : timers (clearTimeout (startTimer s1) s1) = timers s).
    { unfold s1, deferCommit. simpl. rewrite NT, TM.
      now apply filter_fresh_timer; [apply (ids_fresh s Hc)|]. }
    rewrite Hcleared in Hrest.
    assert (Hpend : pendingRipples s2 =
                    [mkRipple (nextKey s + 1) DURATION (p_pulsate params)
                       (p_rippleX params) (p_rippleY params)
                       (p_rippleSize params)]).
    { rewrite E2. unfold pendingRipples. simpl. rewrite R, U, K, Hrip, Hupd.
      reflexivity. }
    assert (Hplain : forall st,
               startTimerCommit st = None -> forceFire event' st = false).
    { intros st H. unfold forceFire. rewrite H. apply andb_false_r. }
    assert (Hnone : startTimerCommit s2 = None) by (rewrite E2; reflexivity).
    destruct (render_timers s2) as (RT & RC & _ & _).
    exists (nextTimer s1). eexists.
    split; [exact Hst|].
    split; [simpl; now rewrite R|].
    split; [simpl; now rewrite U|].
    split; [rewrite render_ripples; exact Hpend|].
    split; [exact Hpul|].
    assert (Hf' : findTimer (nextTimer s1) (render s2)
                  = Some (mkTimer (nextTimer s1) 0 (RunStop event' cb')))
      by (unfold findTimer in *; now rewrite RT).
    rewrite (fire_found _ _ _ Hf'), (fire_found _ _ _ Hf). simpl runTask.
    rewrite RT. change (S (nextTimer n)) with (nextTimer s1).
    rewrite Hrest.
    split; [|split].
    + rewrite render_ripples, pendingRipples_stop
        by (apply Hplain; simpl; now rewrite RC).
      change (pendingRipples (set_timers (timers s) (render s2)))
        with (pendingRipples (render s2)).
      now rewrite pendingRipples_render, Hpend.
    + rewrite render_ripples, pendingRipples_stop
        by (apply Hplain; exact Hnone).
      change (pendingRipples (set_timers (timers s) s2))
        with (pendingRipples s2).
      now rewrite Hpend.
    + rewrite stop_plain by (apply Hplain; simpl; now rewrite RC).
      simpl.
      destruct (render_timers s2) as (_ & _ & RS & _).
      rewrite RS, Hst. simpl.
      assert (Hlt : Forall (fun t => (tm_id t < nextTimer s1)%nat) (timers s)).
      { eapply Forall_impl; [|exact (ids_fresh s Hc)].
        unfold s1, deferCommit. simpl. rewrite NT. intros; lia. }
      exact (filter_below (timers s) (nextTimer s1) Hlt).
Qed.

Lemma touch_end_force_fires_witness :
  (exists params,
      startTimerCommit Sample.touching = Some params
      /\ updates (stop Sample.touchEnd (Some 2%nat) Sample.touching)
         = [Append params]
      /\ deferredCommits (stop Sample.touchEnd (Some 2%nat) Sample.touching)
         = [])
  /\ (exists id r,
         let s2 := stop Sample.touchEnd (Some 2%nat) Sample.touching in
         startTimer s2 = Some id
         /\ ripples (render s2) = [r]
         /\ ripples (render (fire id (render s2))) = []
         /\ ripples (render (fire id s2)) = []).
Proof.
  assert (R0 : reachable Sample.mounted)
    by (exists false, (Some Sample.box), []; reflexivity).
  assert (R1 : reachable Sample.touching)
    by (exists false, (Some Sample.box),
          [DoStart (Sample.touchStart 60 30) Sample.noOptions (Some 1%nat)];
        reflexivity).
  destruct touch_end_force_fires as [HA HB]. split.
  - eexists. split; [reflexivity|].
    destruct (HA Sample.touchEnd (Some 2%nat) Sample.touching _ R1
                eq_refl eq_refl) as (_ & H1 & _ & H2 & _).
    split; [exact H1|exact H2].
  - destruct (HB (Sample.touchStart 60 30) Sample.noOptions (Some 1%nat)
                Sample.touchEnd (Some 2%nat) Sample.mounted _ R0
                eq_refl eq_refl eq_refl eq_refl eq_refl)
      as (id & r & H1 & _ & _ & H2 & _ & H3 & H4 & _);
      [discriminate|reflexivity|].
    exists id, r. simpl. repeat split; assumption.
Defined.

(* ================================================================== *)
(** ** Callbacks *)
(* ================================================================== *)



Lemma stop_log event cb s : log (stop event cb s) = log s.
Proof.
  destruct (clearTimeout_react (startTimer s) s) as (_ & _ & _ & L & _).
  destruct (forceFire event s) eqn:FF.
  - unfold forceFire in FF. apply andb_true_iff in FF as [Ht Hc].
    destruct (startTimerCommit s) as [params|] eqn:E; [|discriminate].
    rewrite (stop_forced event cb s params Ht E). simpl. exact L.
  - rewrite (stop_plain event cb s FF). simpl. exact L.
Qed.

(** A [start] that is neither suppressed nor given a touch event is
    [startCommit] on some geometry. *)
Lemma start_commits event options cb s :
  touches event = None ->
  suppressed event s = false ->
  exists params,
    start event options cb s
    = Returned (startCommit params (noteTouchStart event s))
    /\ p_cb params = cb
    /\ p_pulsate params = pulsateOf options.
Proof.
  intros Ht Hs. unfold start. rewrite Hs.
  unfold ripplePosition, pointOf, commitOrDefer. rewrite Ht.
  destruct (centered _ _); eexists; (split; [reflexivity|split; reflexivity]).
Qed.

(** What the render after a [startCommit] shows and delivers. *)
Lemma render_startCommit params s :
  exists rs r,
    ripples (render (startCommit params s)) = rs ++ [r]
    /\ r_pulsate r = p_pulsate params
    /\ log (render (startCommit params s))
       = log s ++ Rendered (rs ++ [r]) :: delivery (p_cb params)
    /\ rippleCallback (render (startCommit params s)) = None
    /\ (updates s = [] -> rs = ripples s).
Proof.
  exists (fst (runUpdates (nextKey s + 1) (updates s) (ripples s))).
  eexists.
  rewrite render_ripples, render_log, render_rippleCallback.
  unfold changes, pendingRipples, startCommit. simpl.
  rewrite runUpdates_app.
  destruct (runUpdates (nextKey s + 1) (updates s) (ripples s))
    as [mid c1] eqn:E.
  simpl. rewrite orb_true_r.
  split; [reflexivity|]. split; [reflexivity|].
  split; [reflexivity|]. split; [reflexivity|].
  intros Hu. rewrite Hu in E. simpl in E. now inversion E.
Qed.

Lemma stop_plain_fields event cb s :
  forceFire event s = false ->
  ripples (stop event cb s) = ripples s
  /\ updates (stop event cb s) = updates s ++ [DropFirst]
  /\ nextKey (stop event cb s) = nextKey s
  /\ rippleCallback (stop event cb s) = cb.
Proof.
  intros FF. rewrite (stop_plain event cb s FF).
  destruct (clearTimeout_react (startTimer s) s) as (R & U & K & _).
  simpl. now rewrite R, U, K.
Qed.

Lemma changes_stop event cb s :
  forceFire event s = false ->
  changes (stop event cb s)
  = changes s || negb (match pendingRipples s with [] => true | _ => false end).
Proof.
  intros FF.
  destruct (stop_plain_fields event cb s FF) as (R & U & K & _).
  unfold changes, pendingRipples. rewrite R, U, K, runUpdates_app.
  destruct (runUpdates (nextKey s) (updates s) (ripples s)) as [mid c].
  simpl. destruct mid; reflexivity.
Qed.

(** C7, as stated, fails in its last clause: on the sample surface with
    no ripple, [stop(mouseup, c)] stores [c]; the next mutation of the
    collection is a mouse press that has nothing to do with [c], and
    after its render [c] has not been invoked.  [startCommit] had put
    its own callback in the slot before the effect ran. *)
Lemma stale_callback_is_lost :
  ~ staleCallbackFiresOnNextMutation
  /\ log (run Sample.mounted
            [DoStop Sample.mouseUp (Some 7%nat); DoRender]) = []
  /\ calls (log (run Sample.mounted
                   [DoStop Sample.mouseUp (Some 7%nat); DoRender;
                    DoStart (Sample.mouseDown 60 30) Sample.noOptions None;
                    DoRender])) = []
  /\ rippleCallback
       (run Sample.mounted
          [DoStop Sample.mouseUp (Some 7%nat); DoRender;
           DoStart (Sample.mouseDown 60 30) Sample.noOptions None;
           DoRender]) = None.
Proof.
  split; [|repeat split; reflexivity].
  intros H.
  specialize (H Sample.mounted Sample.mouseUp 7%nat
                (Sample.mouseDown 60 30) Sample.noOptions
                eq_refl eq_refl eq_refl eq_refl eq_refl).
  vm_compute in H. exact H.
Qed.

(** C7, amended: a [stop] outside the force-fire branch, on an engine
    with no ripple and nothing queued, leaves the collection empty and
    puts its callback in the slot in place of whatever was there, which
    is thereby dropped without having fired.  The render that follows
    changes nothing and invokes nothing, so the callback stays in the
    slot.  The next [start] that commits a ripple overwrites the slot
    with its own callback before the effect runs: after that render the
    log holds the new collection and that [start]'s callback only, and
    the slot is empty. *)
Theorem stop_on_empty_collection event cb s :
  forceFire event s = false ->
  ripples s = [] -> updates s = [] ->
  let s1 := stop event cb s in
  (ripples s1 = [] /\ pendingRipples s1 = [] /\ ripples (render s1) = [])
  /\ (rippleCallback s1 = cb /\ log s1 = log s)
  /\ (log (render s1) = log s /\ rippleCallback (render s1) = cb)
  /\ (forall next options cb',
         touches next = None ->
         suppressed next (render s1) = false ->
         let s2 := render (engineOf (start next options cb' (render s1))) in
         exists r,
           ripples s2 = [r]
           /\ log s2 = log s ++ Rendered [r] :: delivery cb'
           /\ rippleCallback s2 = None).
Proof.
  intros FF Hr Hu s1.
  destruct (stop_plain_fields event cb s FF) as (R & U & K & C).
  fold s1 in R, U, K, C.
  assert (Hp : pendingRipples s1 = []).
  { subst s1. rewrite pendingRipples_stop by exact FF.
    unfold pendingRipples. now rewrite Hr, Hu. }
  assert (Hc : changes s1 = false).
  { subst s1. rewrite changes_stop by exact FF.
    unfold changes, pendingRipples. now rewrite Hr, Hu. }
  assert (L : log s1 = log s) by apply stop_log.
  assert (Hl : log (render s1) = log s)
    by (rewrite render_log, Hc, app_nil_r; exact L).
  assert (Hrr : ripples (render s1) = [])
    by (rewrite render_ripples; exact Hp).
  split; [now rewrite R, Hr|].
  split; [split; assumption|].
  split; [split; [exact Hl|now rewrite render_rippleCallback, Hc]|].
  intros next options cb' Ht Hs s2.
  destruct (start_commits next options cb' (render s1) Ht Hs)
    as (params & E & Hcb & _).
  subst s2. rewrite E. simpl engineOf.
  destruct (noteTouchStart_fields next (render s1))
    as (R' & U' & _ & _ & L' & _).
  destruct (render_startCommit params (noteTouchStart next (render s1)))
    as (rs & r & H1 & _ & H2 & H3 & H4).
  rewrite U', render_updates in H4. specialize (H4 eq_refl).
  rewrite R', Hrr in H4. subst rs.
  exists r. rewrite H1, H2, H3, L', Hl, Hcb. repeat split.
Qed.

Lemma stop_on_empty_collection_witness :
  let s1 := stop Sample.mouseUp (Some 7%nat) Sample.mounted in
  rippleCallback (render s1) = Some 7%nat
  /\ log (render s1) = []
  /\ exists r,
       log (render (engineOf (start (Sample.mouseDown 60 30) Sample.noOptions
                                (Some 8%nat) (render s1))))
       = [Rendered [r]; Called 8%nat].
Proof.
  destruct (stop_on_empty_collection Sample.mouseUp (Some 7%nat)
              Sample.mounted eq_refl eq_refl eq_refl)
    as (_ & _ & (H1 & H2) & H3).
  destruct (H3 (Sample.mouseDown 60 30) Sample.noOptions (Some 8%nat)
              eq_refl eq_refl) as (r & _ & H4 & _).
  simpl. split; [exact H2|]. split; [exact H1|].
  exists r. exact H4.
Defined.




(* ================================================================== *)
(** ** Teardown *)
(* ================================================================== *)

(** X1: unmounting clears the one timer [startTimer] names, and in every
    reachable engine that is enough to cancel the deferred commit: no
    timer left in the table runs the 80-unit body.  It is not enough to
    empty the table: a [stop] re-armed by a force-fire survives when a
    later [touchstart] has overwritten [startTimer], and fired after the
    unmount it still commits the stored ripple. *)
Theorem unmount_cancels_deferred_commit :
  (forall s,
      reachable s ->
      deferredCommits (unmount s) = []
      /\ (forall id t,
             findTimer id (unmount s) = Some t -> tm_task t <> RunCommit))
  /\ (exists s id params,
         reachable s
         /\ timers (unmount s) <> []
         /\ updates (unmount s) = []
         /\ updates (fire id (unmount s)) = [Append params]).
Proof.
  split.
  - intros s Hr.
    destruct (cleared s (reachable_consistent s Hr)) as (_ & _ & D).
    split; [exact D|].
    intros id t Hf Ht.
    apply find_some in Hf as [Hin _].
    assert (Hd : In t (deferredCommits (unmount s))).
    { unfold deferredCommits. apply filter_In. split; auto.
      unfold isCommit. now rewrite Ht. }
    unfold unmount in Hd. rewrite D in Hd. destruct Hd.
  - exists (run Sample.mounted
              [DoStart (Sample.touchStart 60 30) Sample.noOptions None;
               DoStop Sample.touchEnd None;
               DoRender;
               DoStart (Sample.touchStart 20 40) Sample.noOptions None]).
    exists 2%nat. eexists.
    split; [exists false, (Some Sample.box); eexists; reflexivity|].
    split; [vm_compute; discriminate|].
    split; vm_compute; reflexivity.
Qed.

(* ================================================================== *)
(** ** Runs of presses and releases *)
(* ================================================================== *)

Lemma runUpdates_shape k1 k2 us :
  forall old1 old2,
    map shape old1 = map shape old2 ->
    map shape (fst (runUpdates k1 us old1))
    = map shape (fst (runUpdates k2 us old2)).
Proof.
  induction us as [|u us IH]; intros old1 old2 H; simpl; auto.
  destruct u as [p|]; simpl.
  - specialize (IH (old1 ++ [mkRipple k1 DURATION (p_pulsate p) (p_rippleX p)
                               (p_rippleY p) (p_rippleSize p)])
                   (old2 ++ [mkRipple k2 DURATION (p_pulsate p) (p_rippleX p)
                               (p_rippleY p) (p_rippleSize p)])).
    destruct (runUpdates k1 us _), (runUpdates k2 us _). simpl in *.
    apply IH. rewrite !map_app, H. reflexivity.
  - destruct old1 as [|r1 l1], old2 as [|r2 l2]; try discriminate.
    + specialize (IH [] [] eq_refl).
      destruct (runUpdates k1 us []), (runUpdates k2 us []). exact IH.
    + simpl in H. assert (Ht : map shape l1 = map shape l2) by congruence.
      specialize (IH l1 l2 Ht).
      destruct (runUpdates k1 us l1), (runUpdates k2 us l2). exact IH.
Qed.

Lemma shapes_ext s s' :
  ripples s' = ripples s -> updates s' = updates s -> shapes s' = shapes s.
Proof.
  intros R U. unfold shapes, pendingRipples. rewrite R, U.
  now apply runUpdates_shape.
Qed.

Lemma shapes_startCommit params s :
  shapes (startCommit params s) = shapes s ++ [shapeOfParams params].
Proof.
  unfold shapes, pendingRipples, startCommit. simpl.
  rewrite runUpdates_app.
  pose proof (runUpdates_shape (nextKey s + 1) (nextKey s) (updates s)
                (ripples s) (ripples s) eq_refl) as H.
  destruct (runUpdates (nextKey s + 1) (updates s) (ripples s)) as [mid c].
  simpl in *. rewrite map_app, H. reflexivity.
Qed.

Lemma shapes_render s : shapes (render s) = shapes s.
Proof. unfold shapes. now rewrite pendingRipples_render. Qed.

Lemma paramsOf_env s s' event options cb :
  centerProp s' = centerProp s ->
  container s' = container s ->
  paramsOf s' event options cb = paramsOf s event options cb.
Proof.
  intros C E. unfold paramsOf, centerOf, elementOf. now rewrite C, E.
Qed.

(** A plain press met with the mouse flag down is [startCommit] on the
    geometry of [paramsOf]. *)
Lemma start_plainPress s event options cb :
  ignoringMouseDown s = false ->
  plainPress (event, options, cb) ->
  exists params,
    paramsOf s event options cb = Some params
    /\ start event options cb s = Returned (startCommit params s).
Proof.
  intros Hi [Ht Hn].
  assert (Hs : suppressed event s = false)
    by (unfold suppressed; rewrite Hi; apply andb_false_r).
  unfold paramsOf.
  destruct (ripplePosition (centerOf s options) event
              (rectOf (elementOf s options))) as [[rx ry]|] eqn:Hp.
  - eexists. split; [reflexivity|].
    rewrite (start_unsuppressed event options cb s rx ry Hs Hp).
    unfold commitOrDefer, noteTouchStart. now rewrite Ht, Hn.
  - exfalso. unfold ripplePosition, pointOf in Hp. rewrite Ht in Hp.
    destruct (centered _ _); discriminate.
Qed.

(** X2: calls of [start] made in a row, each with an event that has no
    touches list and is not a [touchstart], on an engine whose mouse
    flag is down, each add one ripple: the collection the next render
    shows is the one pending before followed by one ripple per call, in
    call order, each with the [pulsate] flag and geometry of its call. *)
Theorem starts_append_in_call_order calls :
  forall s,
    ignoringMouseDown s = false ->
    Forall plainPress calls ->
    shapes (run s (map doStart calls))
    = shapes s ++ flat_map (shapeOfCall s) calls
    /\ List.length (flat_map (shapeOfCall s) calls) = List.length calls
    /\ map shape (ripples (render (run s (map doStart calls))))
       = shapes s ++ flat_map (shapeOfCall s) calls.
Proof.
  assert (H : forall s,
             ignoringMouseDown s = false ->
             Forall plainPress calls ->
             shapes (run s (map doStart calls))
             = shapes s ++ flat_map (shapeOfCall s) calls
             /\ List.length (flat_map (shapeOfCall s) calls)
                = List.length calls).
  { induction calls as [|[[event options] cb] calls IH]; intros s Hi Hall.
    - simpl. now rewrite app_nil_r.
    - inversion_clear Hall as [|? ? Hp Hrest].
      destruct (start_plainPress s event options cb Hi Hp)
        as (params & Hpar & Hst).
      simpl. rewrite Hst. simpl engineOf. rewrite Hpar. simpl.
      destruct (IH (startCommit params s)) as [IH1 IH2]; auto.
      rewrite IH1, shapes_startCommit, <- app_assoc. simpl.
      assert (E : flat_map (shapeOfCall (startCommit params s)) calls
                  = flat_map (shapeOfCall s) calls).
      { apply flat_map_ext. intros [[e o] c]. unfold shapeOfCall.
        now rewrite (paramsOf_env s (startCommit params s)). }
      rewrite E in *. split; [reflexivity|]. now rewrite IH2. }
  intros s Hi Hall. destruct (H s Hi Hall) as [H1 H2].
  repeat split; auto.
  rewrite render_ripples. exact H1.
Qed.

Lemma starts_append_in_call_order_witness :
  map shape
    (ripples
       (render
          (run Sample.mounted
             (map doStart
                [(Sample.mouseDown 60 30, Sample.noOptions, None);
                 (Sample.mouseDown 0 0, Sample.pulsateOption, None)]))))
  = [(false, 50, 20, JS.sqrt (JS.sq 102 + JS.sq 62));
     (true, 50, 25, JS.sqrt 7500)].
Proof.
  destruct (starts_append_in_call_order
              [(Sample.mouseDown 60 30, Sample.noOptions, None);
               (Sample.mouseDown 0 0, Sample.pulsateOption, None)]
              Sample.mounted eq_refl) as (_ & _ & H).
  - repeat constructor.
  - rewrite H. vm_compute. reflexivity.
Defined.

Lemma skipn_S_tl {A} n (l : list A) : skipn (S n) l = skipn n (tl l).
Proof. destruct l; simpl; auto. now destruct n. Qed.

Lemma startTimerCommit_stop event cb s :
  startTimerCommit (stop event cb s) = None.
Proof.
  unfold stop. rewrite startTimerCommit_clearTimeout.
  destruct (typeIs event "touchend"), (startTimerCommit s); reflexivity.
Qed.

(** X3: calls of [stop] made in a row while no deferred commit is stored
    remove ripples from the front, one per call, and once the
    collection is empty further calls remove nothing: after [n] calls
    the next render shows the pending collection without its first [n]
    instances. *)
Theorem stops_drop_from_front calls :
  forall s,
    startTimerCommit s = None ->
    pendingRipples (run s (map doStop calls))
    = skipn (List.length calls) (pendingRipples s)
    /\ ripples (render (run s (map doStop calls)))
       = skipn (List.length calls) (pendingRipples s).
Proof.
  assert (H : forall s,
             startTimerCommit s = None ->
             pendingRipples (run s (map doStop calls))
             = skipn (List.length calls) (pendingRipples s)).
  { induction calls as [|[event cb] calls IH]; intros s Hn; [reflexivity|].
    simpl map. simpl run. change (fold_left step ?l ?a) with (run a l).
    rewrite IH by apply startTimerCommit_stop.
    rewrite pendingRipples_stop
      by (unfold forceFire; rewrite Hn; apply andb_false_r).
    simpl List.length. now rewrite skipn_S_tl. }
  intros s Hn. split; [now apply H|].
  rewrite render_ripples. now apply H.
Qed.

Lemma stops_drop_from_front_witness :
  ripples (render (run Sample.twoRipples
                     (map doStop [(Sample.mouseUp, None)])))
  = tl (ripples Sample.twoRipples)
  /\ ripples (render (run Sample.twoRipples
                        (map doStop [(Sample.mouseUp, None);
                                     (Sample.mouseUp, Some 1%nat);
                                     (Sample.touchEnd, None)])))
     = [].
Proof.
  split.
  - destruct (stops_drop_from_front [(Sample.mouseUp, None)]
                Sample.twoRipples eq_refl) as [_ H].
    rewrite H. vm_compute. reflexivity.
  - destruct (stops_drop_from_front
                [(Sample.mouseUp, None); (Sample.mouseUp, Some 1%nat);
                 (Sample.touchEnd, None)]
                Sample.twoRipples eq_refl) as [_ H].
    rewrite H. vm_compute. reflexivity.
Defined.

(* ================================================================== *)
(** ** A touch that turns into a scroll; the emulated mouse press *)
(* ================================================================== *)

(** X4: a touch [start] whose deferred commit is still waiting, followed
    by a [stop] for anything but a [touchend] (a [touchmove], say): the
    80-unit timer is cancelled and the stored closure dropped, so the
    ripple of that touch is never appended, no key is used, and the
    callback given to that [start] is held nowhere.  Firing the
    cancelled id does nothing.  What the [stop] queues is its usual
    removal of the oldest ripple. *)
Theorem scroll_cancels_deferred_ripple event options cb event' cb' s ts :
  reachable s ->
  startTimerCommit s = None ->
  suppressed event s = false ->
  touches event = Some ts -> ts <> [] ->
  typeIs event' "touchend" = false ->
  let s1 := engineOf (start event options cb s) in
  let s2 := stop event' cb' s1 in
  isSome (startTimerCommit s1) = true
  /\ startTimer s1 = Some (nextTimer s)
  /\ timers s2 = timers s
  /\ startTimerCommit s2 = None
  /\ updates s2 = updates s ++ [DropFirst]
  /\ nextKey s2 = nextKey s
  /\ rippleCallback s2 = cb'
  /\ fire (nextTimer s) s2 = s2.
Proof.
  intros Hr Hn Hs Ht Hne Hte s1 s2.
  pose proof (reachable_consistent s Hr) as Hc.
  destruct (start_touch_arms event options cb s ts Hs Ht Hne Hn)
    as (params & E & _).
  destruct (noteTouchStart_fields event s)
    as (R & U & K & _ & _ & TC & ST & TM & NT).
  subst s2 s1. rewrite E. simpl engineOf.
  set (s2 := stop event' cb' (deferCommit params (noteTouchStart event s))).
  assert (FF : forceFire event' (deferCommit params (noteTouchStart event s))
               = false)
    by (unfold forceFire; now rewrite Hte).
  assert (Htm : timers s2 = timers s).
  { subst s2. rewrite (stop_plain _ _ _ FF).
    unfold deferCommit. simpl. rewrite NT, TM.
    now apply filter_fresh_timer; [apply (ids_fresh s Hc)|]. }
  split; [reflexivity|].
  split; [unfold deferCommit; simpl; now rewrite NT|].
  split; [exact Htm|].
  split; [apply startTimerCommit_stop|].
  destruct (stop_plain_fields event' cb' _ FF) as (_ & U2 & K2 & C2).
  fold s2 in U2, K2, C2.
  split; [rewrite U2; unfold deferCommit; simpl; now rewrite U|].
  split; [rewrite K2; unfold deferCommit; simpl; now rewrite K|].
  split; [exact C2|].
  unfold fire, findTimer. rewrite Htm.
  destruct (find _ (timers s)) as [t|] eqn:Ef; [|reflexivity].
  apply find_some in Ef as [Hin Hid]. apply Nat.eqb_eq in Hid.
  pose proof (ids_fresh s Hc) as F. rewrite Forall_forall in F.
  specialize (F t Hin). lia.
Qed.

Lemma scroll_cancels_deferred_ripple_witness :
  let s1 := engineOf (start (Sample.touchStart 60 30) Sample.noOptions
                        (Some 1%nat) Sample.mounted) in
  let s2 := stop Sample.mouseUp (Some 2%nat) s1 in
  timers s2 = []
  /\ startTimerCommit s2 = None
  /\ updates s2 = [DropFirst]
  /\ fire 1 s2 = s2.
Proof.
  assert (R0 : reachable Sample.mounted)
    by (exists false, (Some Sample.box), []; reflexivity).
  destruct (scroll_cancels_deferred_ripple (Sample.touchStart 60 30)
              Sample.noOptions (Some 1%nat) Sample.mouseUp (Some 2%nat)
              Sample.mounted _ R0 eq_refl eq_refl eq_refl)
    as (_ & _ & H1 & H2 & H3 & _ & _ & H4);
    [discriminate|reflexivity|].
  split; [exact H1|]. split; [exact H2|]. split; [exact H3|exact H4].
Defined.

(** X5: the mouse flag suppresses one press only.  After a [touchstart]
    the next [mousedown] is swallowed, clearing the flag and nothing
    else; a [mousedown] after that one, with no touches list, is
    committed as a ripple again. *)
Theorem mouse_suppression_is_one_shot e1 o1 c1 e2 o2 c2 e3 o3 c3 s :
  typeIs e1 "touchstart" = true ->
  typeIs e2 "mousedown" = true ->
  typeIs e3 "mousedown" = true ->
  touches e3 = None ->
  let s1 := engineOf (start e1 o1 c1 s) in
  let s2 := engineOf (start e2 o2 c2 s1) in
  s2 = set_ignoringMouseDown false s1
  /\ exists params,
       start e3 o3 c3 s2 = Returned (startCommit params s2)
       /\ shapes (engineOf (start e3 o3 c3 s2))
          = shapes s1 ++ [shapeOfParams params].
Proof.
  intros H1 H2 H3 Ht s1 s2.
  assert (Hi : ignoringMouseDown s1 = true).
  { subst s1. unfold start.
    assert (Hm : typeIs e1 "mousedown" = false).
    { unfold typeIs in *. destruct (type e1) as [t|]; auto.
      apply String.eqb_eq in H1. now subst t. }
    unfold suppressed, noteTouchStart. rewrite Hm, H1. simpl.
    destruct (ripplePosition _ _ _) as [[rx ry]|]; simpl; auto.
    unfold commitOrDefer, deferCommit.
    destruct (touches e1); [destruct (startTimerCommit _)|]; reflexivity. }
  assert (E2 : s2 = set_ignoringMouseDown false s1).
  { subst s2. unfold start, suppressed. now rewrite H2, Hi. }
  split; [exact E2|].
  assert (Hp : plainPress (e3, o3, c3)).
  { split; auto. unfold typeIs in *. destruct (type e3) as [t|]; auto.
    apply String.eqb_eq in H3. now subst t. }
  destruct (start_plainPress s2 e3 o3 c3) as (params & _ & E3); auto.
  { rewrite E2. reflexivity. }
  exists params. split; [exact E3|].
  rewrite E3. simpl engineOf. rewrite shapes_startCommit.
  f_equal. apply shapes_ext; rewrite E2; reflexivity.
Qed.

Lemma mouse_suppression_is_one_shot_witness :
  let s1 := engineOf (start (Sample.touchStart 60 30) Sample.noOptions
                        (Some 1%nat) Sample.mounted) in
  let s2 := engineOf (start (Sample.mouseDown 60 30) Sample.noOptions None s1) in
  s2 = set_ignoringMouseDown false s1
  /\ exists params,
       start (Sample.mouseDown 60 30) Sample.noOptions None s2
       = Returned (startCommit params s2).
Proof.
  destruct (mouse_suppression_is_one_shot
              (Sample.touchStart 60 30) Sample.noOptions (Some 1%nat)
              (Sample.mouseDown 60 30) Sample.noOptions None
              (Sample.mouseDown 60 30) Sample.noOptions None
              Sample.mounted eq_refl eq_refl eq_refl eq_refl)
    as (H1 & params & H2 & _).
  split; [exact H1|]. exists params. exact H2.
Defined.

(* ================================================================== *)
(** ** No callback is invoked more often than it was handed over *)
(* ================================================================== *)

Lemma calls_app l1 l2 : calls (l1 ++ l2) = calls l1 ++ calls l2.
Proof.
  induction l1 as [|[rs|c] l1 IH]; simpl; auto. now rewrite IH.
Qed.

Lemma occurrences_app c l1 l2 :
  occurrences c (l1 ++ l2) = (occurrences c l1 + occurrences c l2)%nat.
Proof. apply count_occ_app. Qed.

Lemma occurrences_filter c (P : Timer -> bool) l :
  (occurrences c (flat_map heldByTask (filter P l))
   <= occurrences c (flat_map heldByTask l))%nat.
Proof.
  induction l as [|a l IH]; simpl; auto.
  destruct (P a); simpl; rewrite ?occurrences_app; lia.
Qed.

Lemma occurrences_removed c (P : Timer -> bool) l t :
  In t l -> P t = false ->
  (occurrences c (flat_map heldByTask (filter P l))
   + occurrences c (heldByTask t)
   <= occurrences c (flat_map heldByTask l))%nat.
Proof.
  induction l as [|a l IH]; simpl; [tauto|].
  intros [->|Hin] Hp.
  - rewrite Hp, occurrences_app.
    pose proof (occurrences_filter c P l). lia.
  - specialize (IH Hin Hp).
    destruct (P a); simpl; rewrite ?occurrences_app; lia.
Qed.


Lemma held_timers_clear c id s :
  (occurrences c (flat_map heldByTask (timers (clearTimeout id s)))
   <= occurrences c (flat_map heldByTask (timers s)))%nat.
Proof.
  destruct id; simpl; [apply occurrences_filter|lia].
Qed.

Lemma accounted_render c s : accounted c (render s) = accounted c s.
Proof.
  destruct (render_timers s) as (T & C & _).
  unfold accounted, held.
  rewrite render_log, render_rippleCallback, T, C.
  destruct (changes s); [|now rewrite app_nil_r].
  rewrite calls_app. simpl calls.
  destruct (rippleCallback s); simpl; rewrite ?app_nil_r;
    repeat rewrite ?occurrences_app; unfold occurrences; simpl;
    repeat match goal with
           | |- context [Nat.eq_dec ?a ?b] => destruct (Nat.eq_dec a b)
           end; lia.
Qed.

Lemma accounted_startCommit c params s :
  (accounted c (startCommit params s)
   <= accounted c s + occurrences c (callbackList (p_cb params)))%nat.
Proof.
  unfold accounted, held, startCommit. simpl.
  repeat rewrite ?occurrences_app. lia.
Qed.

Lemma accounted_start c event options cb s :
  (accounted c (engineOf (start event options cb s))
   <= accounted c s + occurrences c (callbackList cb))%nat.
Proof.
  unfold start.
  destruct (suppressed event s); [simpl; unfold accounted, held; simpl; lia|].
  assert (Hn : accounted c (noteTouchStart event s) = accounted c s).
  { unfold noteTouchStart. now destruct (typeIs event "touchstart"). }
  destruct (ripplePosition _ _ _) as [[rx ry]|]; simpl; [|lia].
  unfold commitOrDefer.
  destruct (touches event).
  - destruct (startTimerCommit (noteTouchStart event s)) eqn:E; [lia|].
    rewrite <- Hn.
    unfold accounted, held, deferCommit. simpl. rewrite E.
    rewrite flat_map_app. simpl.
    repeat rewrite ?occurrences_app. simpl. lia.
  - rewrite <- Hn.
    apply (accounted_startCommit c
             (mkParams (pulsateOf options) rx ry _ cb)).
Qed.

Lemma accounted_stop c event cb s :
  (accounted c (stop event cb s)
   <= accounted c s + occurrences c (callbackList cb))%nat.
Proof.
  pose proof (held_timers_clear c (startTimer s) s) as Ht.
  destruct (clearTimeout_react (startTimer s) s) as (_ & _ & _ & L & C).
  destruct (forceFire event s) eqn:FF.
  - unfold forceFire in FF. apply andb_true_iff in FF as [Hte Hc].
    destruct (startTimerCommit s) as [params|] eqn:E; [|discriminate].
    rewrite (stop_forced event cb s params Hte E).
    unfold accounted, held. simpl. rewrite L, E, flat_map_app. simpl.
    repeat rewrite ?occurrences_app. cbn [heldByTask tm_task].
    change (occurrences c []) with 0%nat. lia.
  - rewrite (stop_plain event cb s FF).
    unfold accounted, held. simpl. rewrite L.
    repeat rewrite ?occurrences_app. lia.
Qed.

Lemma accounted_fire c id s :
  (accounted c (fire id s) <= accounted c s)%nat.
Proof.
  unfold fire, findTimer.
  destruct (find _ (timers s)) as [t|] eqn:Ef; [|lia].
  apply find_some in Ef as [Hin Hid].
  pose proof (occurrences_removed c
                (fun t' => negb (tm_id t' =? id)%nat) (timers s) t Hin) as Hr.
  cbv beta in Hr. rewrite Hid in Hr. specialize (Hr eq_refl).
  set (s1 := set_timers
               (filter (fun t' => negb (tm_id t' =? id)%nat) (timers s)) s)
    in *.
  assert (H1 : (accounted c s1 + occurrences c (heldByTask t)
                <= accounted c s)%nat).
  { unfold accounted, held, s1 in *. simpl.
    repeat rewrite ?occurrences_app in *. lia. }
  unfold heldByTask in H1.
  destruct (tm_task t) as [|event cb]; simpl.
  - change (startTimerCommit s1) with (startTimerCommit s).
    destruct (startTimerCommit s) as [params|] eqn:E; [|simpl in H1; lia].
    assert (H2 : (accounted c (set_startTimerCommit None (startCommit params s1))
                  <= accounted c s1)%nat).
    { unfold accounted, held, s1. simpl. rewrite E.
      repeat rewrite ?occurrences_app. lia. }
    simpl in H1. lia.
  - pose proof (accounted_stop c event cb s1). lia.
Qed.

Lemma accounted_step c s a :
  (accounted c (step s a) <= accounted c s + occurrences c (given a))%nat.
Proof.
  destruct a; simpl.
  - apply accounted_start.
  - apply accounted_stop.
  - pose proof (accounted_start c emptyEvent
                  (mkOptions (Some true) None None) None s) as H.
    simpl in H. unfold pulsate. unfold occurrences. simpl. lia.
  - pose proof (accounted_fire c id s). unfold occurrences. simpl. lia.
  - rewrite accounted_render. unfold occurrences. simpl. lia.
Qed.

Lemma accounted_run c acts :
  forall s,
    (accounted c (run s acts)
     <= accounted c s + occurrences c (flat_map given acts))%nat.
Proof.
  induction acts as [|a acts IH]; intros s; simpl.
  - unfold occurrences. simpl. lia.
  - specialize (IH (step s a)).
    pose proof (accounted_step c s a).
    change (fold_left step acts (step s a)) with (run (step s a) acts).
    rewrite occurrences_app. lia.
Qed.

(** X6: over any run of calls, timer firings and renders from mounting,
    a callback is invoked at most as many times as it was handed to
    [start] or [stop]; a callback never handed over is never invoked. *)
Theorem callbacks_invoked_at_most_as_given center el acts c :
  (occurrences c (calls (log (run (mount center el) acts)))
   <= occurrences c (flat_map given acts))%nat
  /\ (~ In c (flat_map given acts) ->
      ~ In c (calls (log (run (mount center el) acts)))).
Proof.
  assert (H : (occurrences c (calls (log (run (mount center el) acts)))
               <= occurrences c (flat_map given acts))%nat).
  { pose proof (accounted_run c acts (mount center el)) as H.
    unfold accounted in H at 2. simpl in H.
    unfold accounted in H. unfold occurrences in *. simpl in H. lia. }
  split; [exact H|].
  intros Hn Hin.
  apply (count_occ_not_In Nat.eq_dec) in Hn.
  apply (count_occ_In Nat.eq_dec) in Hin.
  unfold occurrences in H. lia.
Qed.

(* ================================================================== *)
(** ** Keyboard modality *)
(* ================================================================== *)

Lemma timed_step st a :
  FocusVisible.timed (snd st) ->
  FocusVisible.timed (snd (FocusVisible.step st a)).
Proof.
  destruct st as [refs g]. unfold FocusVisible.timed. simpl.
  destruct a; simpl; auto.
  - unfold FocusVisible.handleKeyDown.
    destruct (_ || _); simpl; auto.
  - unfold FocusVisible.handleVisibilityChange.
    destruct (String.eqb _ _); auto.
    destruct (FocusVisible.hadFocusVisibleRecently g) eqn:E; simpl; auto.
    now rewrite E.
  - unfold FocusVisible.handleFocusVisible.
    destruct (FocusVisible.isFocusVisible target g); simpl; auto.
  - unfold FocusVisible.handleBlurVisible.
    destruct (FocusVisible.getRef refs hook); simpl; auto.
    intros H. exists (FocusVisible.nextId g). split; auto.
    destruct (FocusVisible.hadFocusVisibleRecently g).
    + destruct H as (id & -> & ->). simpl. now rewrite Nat.eqb_refl.
    + rewrite H. now destruct (FocusVisible.hadFocusVisibleRecentlyTimeout g).
  - unfold FocusVisible.fire.
    destruct (existsb (Nat.eqb id) (FocusVisible.live g)) eqn:E; simpl; auto.
    intros H.
    destruct (FocusVisible.hadFocusVisibleRecently g).
    + destruct H as (id' & _ & Hl). rewrite Hl in *. simpl in *.
      rewrite orb_false_r in E. rewrite Nat.eqb_sym, E. reflexivity.
    + rewrite H in E. discriminate.
Qed.

Lemma timed_run steps :
  forall st,
    FocusVisible.timed (snd st) ->
    FocusVisible.timed (snd (FocusVisible.run st steps)).
Proof.
  induction steps as [|a steps IH]; intros st H; simpl; auto.
  apply IH. now apply timed_step.
Qed.

(** X7: whatever the document handlers, the hooks and their owners do
    from the moment the module is loaded, [hadFocusVisibleRecently] is
    up exactly while one timer is live, the one the module last armed:
    the flag cannot stay up once that timer has fired, and no timer is
    left behind when it is down. *)
Theorem recently_flag_is_timed steps :
  let g := snd (FocusVisible.run ([], FocusVisible.loaded) steps) in
  FocusVisible.timed g
  /\ (FocusVisible.hadFocusVisibleRecently g = true ->
      exists id,
        FocusVisible.live g = [id]
        /\ FocusVisible.hadFocusVisibleRecently (FocusVisible.fire id g) = false
        /\ FocusVisible.live (FocusVisible.fire id g) = [])
  /\ (FocusVisible.hadFocusVisibleRecently g = false ->
      forall id, FocusVisible.fire id g = g).
Proof.
  intros g.
  assert (H : FocusVisible.timed g)
    by (apply timed_run; reflexivity).
  split; [exact H|]. unfold FocusVisible.timed in H. split.
  - intros E. rewrite E in H. destruct H as (id & _ & Hl).
    exists id. unfold FocusVisible.fire. rewrite Hl. simpl.
    rewrite Nat.eqb_refl. simpl. repeat split.
  - intros E id. rewrite E in H.
    unfold FocusVisible.fire. now rewrite H.
Qed.

Lemma recently_flag_is_timed_witness :
  let g := snd (FocusVisible.run ([], FocusVisible.loaded)
                  [FocusVisible.WriteRef 0 true; FocusVisible.Blur 0;
                   FocusVisible.WriteRef 1 true; FocusVisible.Blur 1]) in
  FocusVisible.hadFocusVisibleRecently g = true
  /\ exists id,
       FocusVisible.live g = [id]
       /\ FocusVisible.hadFocusVisibleRecently (FocusVisible.fire id g) = false.
Proof.
  destruct (recently_flag_is_timed
              [FocusVisible.WriteRef 0 true; FocusVisible.Blur 0;
               FocusVisible.WriteRef 1 true; FocusVisible.Blur 1])
    as (_ & H & _).
  simpl. split; [reflexivity|].
  destruct (H eq_refl) as (id & H1 & H2 & _).
  exists id. split; [exact H1|exact H2].
Defined.

(** X8: when a hook whose ref is up is blurred and the tab is hidden
    before the 100-unit timer fires, the module switches to keyboard
    modality, whatever it was: the next focus on any node is reported
    focus-visible by the fallback.  If the timer fires first, hiding the
    tab changes nothing. *)
Theorem hidden_tab_restores_keyboard_modality g :
  let g1 := snd (FocusVisible.handleBlurVisible true g) in
  let g2 := FocusVisible.handleVisibilityChange "hidden" g1 in
  FocusVisible.handleBlurVisible true g = (true, false, g1)
  /\ FocusVisible.hadKeyboardEvent g2 = true
  /\ (forall target ref,
         FocusVisible.matches target = None ->
         FocusVisible.handleFocusVisible target ref g2 = (true, true, g2))
  /\ (let g3 := FocusVisible.fire (FocusVisible.nextId g) g1 in
      FocusVisible.hadFocusVisibleRecently g3 = false
      /\ FocusVisible.handleVisibilityChange "hidden" g3 = g3
      /\ FocusVisible.hadKeyboardEvent g3 = FocusVisible.hadKeyboardEvent g).
Proof.
  simpl. split; [reflexivity|]. split; [reflexivity|]. split.
  - intros target ref Hm.
    unfold FocusVisible.handleFocusVisible, FocusVisible.isFocusVisible.
    now rewrite Hm.
  - unfold FocusVisible.fire. simpl.
    rewrite existsb_app. simpl. rewrite Nat.eqb_refl, orb_true_r. simpl.
    repeat split.
Qed.

(** X9: key presses made with Meta, Alt or Control held never change the
    module's state or any hook's ref; so after a pointer press, however
    many such shortcuts follow, the fallback reports a node
    focus-visible only if the node itself triggers keyboard modality,
    and a single unmodified key press makes it report every node. *)
Theorem modifier_keys_keep_modality steps :
  Forall (fun a => FocusVisible.modified a = true) steps ->
  (forall st, FocusVisible.run st steps = st)
  /\ (forall refs g target,
         FocusVisible.matches target = None ->
         let g' := snd (FocusVisible.run
                          (refs, FocusVisible.handlePointerDown g) steps) in
         FocusVisible.hadKeyboardEvent g' = false
         /\ FocusVisible.isFocusVisible target g'
            = FocusVisible.focusTriggersKeyboardModality target
         /\ FocusVisible.isFocusVisible target
              (FocusVisible.handleKeyDown
                 (FocusVisible.mkKey false false false) g') = true).
Proof.
  intros Hall.
  assert (H : forall st, FocusVisible.run st steps = st).
  { induction steps as [|a steps IH]; intros st; [reflexivity|].
    inversion_clear Hall as [|? ? Ha Hrest].
    simpl. change (fold_left FocusVisible.step steps ?x)
             with (FocusVisible.run x steps).
    rewrite (IH Hrest).
    destruct st as [refs g]. destruct a; try discriminate.
    simpl in *. unfold FocusVisible.handleKeyDown. now rewrite Ha. }
  split; [exact H|].
  intros refs g target Hm. rewrite H. simpl.
  unfold FocusVisible.isFocusVisible. rewrite Hm. simpl.
  repeat split.
Qed.

Lemma modifier_keys_keep_modality_witness :
  FocusVisible.hadKeyboardEvent
    (snd (FocusVisible.run
            ([], FocusVisible.handlePointerDown FocusVisible.loaded)
            [FocusVisible.KeyDown (FocusVisible.mkKey false false true);
             FocusVisible.KeyDown (FocusVisible.mkKey true false false)]))
  = false.
Proof.
  destruct (modifier_keys_keep_modality
              [FocusVisible.KeyDown (FocusVisible.mkKey false false true);
               FocusVisible.KeyDown (FocusVisible.mkKey true false false)])
    as [_ H].
  - repeat constructor.
  - destruct (H [] FocusVisible.loaded
                (FocusVisible.mkNode None "BUTTON" false false None) eq_refl)
      as [H1 _].
    exact H1.
Defined.

Lemma has_addEventListener l l' doc :
  FocusVisible.has l doc = true ->
  FocusVisible.has l (FocusVisible.addEventListener l' doc) = true.
Proof.
  unfold FocusVisible.has, FocusVisible.addEventListener. intros H.
  destruct (existsb (FocusVisible.sameListener l') doc); auto.
  rewrite existsb_app, H. reflexivity.
Qed.

Lemma sameListener_refl l : FocusVisible.sameListener l l = true.
Proof.
  unfold FocusVisible.sameListener.
  rewrite String.eqb_refl. now destruct (snd l).
Qed.

Lemma has_added l doc :
  FocusVisible.has l (FocusVisible.addEventListener l doc) = true.
Proof.
  unfold FocusVisible.has, FocusVisible.addEventListener.
  destruct (existsb (FocusVisible.sameListener l) doc) eqn:E; auto.
  rewrite existsb_app. simpl. now rewrite sameListener_refl, orb_true_r.
Qed.

Lemma addEventListener_present l doc :
  FocusVisible.has l doc = true ->
  FocusVisible.addEventListener l doc = doc.
Proof.
  unfold FocusVisible.has, FocusVisible.addEventListener. now intros ->.
Qed.

(** X10: [prepare] may be called on the same document any number of
    times (every mounted hook calls it): a second call registers
    nothing, so on a document that only [prepare] has touched each
    event runs its handler once: [handleKeyDown] for [keydown],
    [handlePointerDown] for [mousedown], [pointerdown] and
    [touchstart], [handleVisibilityChange] for [visibilitychange], and
    nothing for any other type. *)
Theorem prepare_is_idempotent :
  (forall doc,
      FocusVisible.prepare (FocusVisible.prepare doc)
      = FocusVisible.prepare doc)
  /\ (forall e g,
         FocusVisible.dispatch
           (FocusVisible.prepare (FocusVisible.prepare [])) e g
         = if String.eqb (FocusVisible.ev_type e) "keydown"
           then FocusVisible.handleKeyDown (FocusVisible.ev_keys e) g
           else if String.eqb (FocusVisible.ev_type e) "mousedown"
                   || String.eqb (FocusVisible.ev_type e) "pointerdown"
                   || String.eqb (FocusVisible.ev_type e) "touchstart"
           then FocusVisible.handlePointerDown g
           else if String.eqb (FocusVisible.ev_type e) "visibilitychange"
           then FocusVisible.handleVisibilityChange
                  (FocusVisible.ev_visibilityState e) g
           else g).
Proof.
  assert (Hidem : forall doc,
             FocusVisible.prepare (FocusVisible.prepare doc)
             = FocusVisible.prepare doc).
  { intros doc.
    set (d := FocusVisible.prepare doc).
    assert (H1 : FocusVisible.has ("keydown"%string, FocusVisible.OnKeyDown) d
                 = true)
      by (unfold d, FocusVisible.prepare;
          do 4 apply has_addEventListener; apply has_added).
    assert (H2 : FocusVisible.has
                   ("mousedown"%string, FocusVisible.OnPointerDown) d = true)
      by (unfold d, FocusVisible.prepare;
          do 3 apply has_addEventListener; apply has_added).
    assert (H3 : FocusVisible.has
                   ("pointerdown"%string, FocusVisible.OnPointerDown) d = true)
      by (unfold d, FocusVisible.prepare;
          do 2 apply has_addEventListener; apply has_added).
    assert (H4 : FocusVisible.has
                   ("touchstart"%string, FocusVisible.OnPointerDown) d = true)
      by (unfold d, FocusVisible.prepare;
          apply has_addEventListener; apply has_added).
    assert (H5 : FocusVisible.has
                   ("visibilitychange"%string, FocusVisible.OnVisibilityChange)
                   d = true)
      by (unfold d, FocusVisible.prepare; apply has_added).
    unfold FocusVisible.prepare at 1.
    rewrite (addEventListener_present _ d H1),
            (addEventListener_present _ d H2),
            (addEventListener_present _ d H3),
            (addEventListener_present _ d H4).
    exact (addEventListener_present _ d H5). }
  split; [exact Hidem|].
  intros [ty keys vis] g. rewrite Hidem.
  change (FocusVisible.prepare [])
    with [("keydown"%string, FocusVisible.OnKeyDown);
          ("mousedown"%string, FocusVisible.OnPointerDown);
          ("pointerdown"%string, FocusVisible.OnPointerDown);
          ("touchstart"%string, FocusVisible.OnPointerDown);
          ("visibilitychange"%string, FocusVisible.OnVisibilityChange)].
  unfold FocusVisible.dispatch.
  cbn [fold_left fst snd FocusVisible.runHandler FocusVisible.ev_type
       FocusVisible.ev_keys FocusVisible.ev_visibilityState].
  rewrite !(String.eqb_sym ty).
  destruct (String.eqb "keydown" ty) eqn:E1;
    [apply String.eqb_eq in E1; subst ty; reflexivity|].
  destruct (String.eqb "mousedown" ty) eqn:E2;
    [apply String.eqb_eq in E2; subst ty; reflexivity|].
  destruct (String.eqb "pointerdown" ty) eqn:E3;
    [apply String.eqb_eq in E3; subst ty; reflexivity|].
  destruct (String.eqb "touchstart" ty) eqn:E4;
    [apply String.eqb_eq in E4; subst ty; reflexivity|].
  reflexivity.
Qed.

(* ================================================================== *)
(** ** The exit of a ripple *)
(* ================================================================== *)

Lemma sound_effect i :
  Exit.handleExited i = Exit.onExited (Exit.props i) ->
  Exit.timers i = [] ->
  Exit.mounted i = true ->
  Exit.sound (Exit.effect i).
Proof.
  intros Hl Ht Hm. unfold Exit.effect.
  destruct (Exit.falsy (Exit.inProp (Exit.props i))) eqn:E.
  - constructor; simpl; auto;
      try (right; rewrite Ht; simpl; auto).
  - constructor; simpl; auto; try (intros H; contradiction).
Qed.

Lemma timers_runCleanup i :
  Exit.sound i -> Exit.timers (Exit.runCleanup i) = [].
Proof.
  intros [_ S _]. unfold Exit.runCleanup. simpl.
  destruct S as [->|[Hc Ht]].
  - now destruct (Exit.cleanup i).
  - rewrite Hc, Ht. simpl. now rewrite Nat.eqb_refl.
Qed.

Lemma sameDeps_eq p q :
  Exit.sameDeps p q = true ->
  Exit.inProp p = Exit.inProp q /\ Exit.timeout p = Exit.timeout q.
Proof.
  unfold Exit.sameDeps. intros H. apply andb_true_iff in H as [H1 H2].
  apply Nat.eqb_eq in H2. split; auto.
  destruct (Exit.inProp p) as [a|], (Exit.inProp q) as [b|];
    try discriminate; auto.
  apply Bool.eqb_prop in H1. now subst.
Qed.

Lemma sound_step i a : Exit.sound i -> Exit.sound (Exit.step i a).
Proof.
  intros H. destruct a as [p|id|]; simpl.
  - unfold Exit.update.
    destruct (Exit.mounted i) eqn:Hm; auto.
    destruct (Exit.sameDeps (Exit.props i) p) eqn:Hd; simpl.
    + destruct (sameDeps_eq _ _ Hd) as [Hi Ht].
      destruct H as [L S X].
      constructor; simpl; auto; rewrite <- ?Hi, <- ?Ht; auto.
    + apply sound_effect; simpl; auto.
      now apply timers_runCleanup.
  - unfold Exit.fire.
    destruct (existsb _ (Exit.timers i)) eqn:E; auto.
    destruct H as [L S X].
    assert (Hf : filter (fun t => negb (fst t =? id)%nat) (Exit.timers i)
                 = []).
    { destruct S as [S|[_ S]]; [now rewrite S|].
      rewrite S in E |- *. simpl in *. rewrite orb_false_r in E.
      now rewrite E. }
    constructor; simpl;
      [exact L | left; exact Hf | intros Hn; now rewrite Hf in Hn].
  - unfold Exit.unmount.
    destruct (Exit.mounted i); auto.
    pose proof (timers_runCleanup i H) as Ht. simpl in Ht.
    destruct H as [L S X].
    constructor; simpl;
      [exact L | left; exact Ht | intros Hn; now rewrite Ht in Hn].
Qed.

Lemma sound_run steps :
  forall i, Exit.sound i -> Exit.sound (Exit.run i steps).
Proof.
  induction steps as [|a steps IH]; intros i H; simpl; auto.
  apply IH. now apply sound_step.
Qed.

Lemma sound_mount p : Exit.sound (Exit.mount p).
Proof. apply sound_effect; reflexivity. Qed.

(** X11: through any run of renders, timer firings and an unmount, a
    ripple has at most one exit timer live.  While one is live the
    ripple is mounted, its [in] prop is falsy, it is marked leaving and
    the timer's delay is the current [timeout]; when it fires it calls
    the [onExited] of the latest render, whichever render armed it, and
    leaves no timer behind.  Hence no timer is live, and [onExited]
    cannot be reached, once the ripple is unmounted or [in] is true. *)
Theorem exit_timer_discipline p steps :
  let i := Exit.run (Exit.mount p) steps in
  (List.length (Exit.timers i) <= 1)%nat
  /\ (forall id delay,
         In (id, delay) (Exit.timers i) ->
         delay = Exit.timeout (Exit.props i)
         /\ Exit.mounted i = true
         /\ Exit.falsy (Exit.inProp (Exit.props i)) = true
         /\ Exit.leaving i = true
         /\ Exit.exits (Exit.fire id i)
            = Exit.exits i ++ [Exit.onExited (Exit.props i)]
         /\ Exit.timers (Exit.fire id i) = [])
  /\ (Exit.mounted i = false -> Exit.timers i = [])
  /\ (Exit.falsy (Exit.inProp (Exit.props i)) = false -> Exit.timers i = [])
  /\ (Exit.timers i = [] -> forall id, Exit.fire id i = i).
Proof.
  intros i.
  assert (H : Exit.sound i) by apply sound_run, sound_mount.
  destruct H as [L S X].
  split; [destruct S as [->|[_ ->]]; simpl; lia|].
  split.
  - intros id delay Hin.
    assert (Hn : Exit.timers i <> []) by (intros E; now rewrite E in Hin).
    destruct (X Hn) as (Hm & Hf & Hl).
    destruct S as [S|[_ S]]; [contradiction|].
    rewrite S in Hin. destruct Hin as [Hin|[]].
    injection Hin as Hid Hd.
    unfold Exit.fire. rewrite S. simpl. rewrite Hid, Nat.eqb_refl. simpl.
    rewrite L. repeat split; auto.
  - split.
    + intros Hm. destruct (Exit.timers i) eqn:E; auto.
      destruct X as (Hm' & _); [discriminate|congruence].
    + split.
      * intros Hf. destruct (Exit.timers i) eqn:E; auto.
        destruct X as (_ & Hf' & _); [discriminate|congruence].
      * intros E id. unfold Exit.fire. now rewrite E.
Qed.

Lemma leaving_step i a :
  Exit.leaving i = true -> Exit.leaving (Exit.step i a) = true.
Proof.
  intros H. destruct a as [p|id|]; simpl.
  - unfold Exit.update, Exit.effect, Exit.runCleanup.
    destruct (Exit.mounted i); auto.
    destruct (Exit.sameDeps (Exit.props i) p); simpl; auto.
    destruct (Exit.falsy (Exit.inProp p)); simpl; auto.
  - unfold Exit.fire. destruct (existsb _ _); auto.
  - unfold Exit.unmount. destruct (Exit.mounted i); auto.
Qed.

(** X12: [leaving] latches.  Once a ripple has been marked leaving no
    render, timer or unmount takes the mark back; a ripple whose [in]
    prop returns to true before its exit timer fired keeps the leaving
    mark although its exit has been cancelled. *)
Theorem leaving_latches i steps :
  Exit.leaving i = true ->
  Exit.leaving (Exit.run i steps) = true
  /\ (forall p q,
         Exit.falsy (Exit.inProp p) = true ->
         Exit.inProp q = Some true ->
         let j := Exit.update q (Exit.mount p) in
         Exit.leaving j = true /\ Exit.timers j = []
         /\ Exit.inProp (Exit.props j) = Some true).
Proof.
  intros H. split.
  - revert i H. induction steps as [|a steps IH]; intros i H; simpl; auto.
    apply IH. now apply leaving_step.
  - intros p q Hp Hq.
    assert (Hd : Exit.sameDeps p q = false).
    { unfold Exit.sameDeps. rewrite Hq.
      destruct (Exit.inProp p) as [[|]|]; try discriminate; reflexivity. }
    unfold Exit.mount, Exit.effect. simpl. rewrite Hp.
    unfold Exit.update. simpl. rewrite Hd. simpl.
    unfold Exit.effect. simpl. rewrite Hq. simpl.
    repeat split; auto.
Qed.

Lemma leaving_latches_witness :
  Exit.leaving
    (Exit.run (Exit.mount (Exit.mkProps (Some false) 550 (Some 3%nat)))
       [Exit.Update (Exit.mkProps (Some true) 550 (Some 3%nat));
        Exit.Fire 1; Exit.Unmount]) = true.
Proof.
  destruct (leaving_latches
              (Exit.mount (Exit.mkProps (Some false) 550 (Some 3%nat)))
              [Exit.Update (Exit.mkProps (Some true) 550 (Some 3%nat));
               Exit.Fire 1; Exit.Unmount] eq_refl) as [H _].
  exact H.
Defined.

Lemma filter_fired {A} (P : A -> bool) l :
  existsb P l = true ->
  (List.length (filter (fun t => negb (P t)) l) + 1 <= List.length l)%nat.
Proof.
  induction l as [|a l IH]; simpl; [discriminate|].
  destruct (P a) eqn:E; simpl.
  - intros _. pose proof (filter_length_le (fun t => negb (P t)) l). lia.
  - intros H. specialize (IH H). lia.
Qed.

Lemma exits_step i a :
  Exit.keeps i a ->
  (List.length (Exit.exits (Exit.step i a))
   + List.length (Exit.timers (Exit.step i a))
   <= List.length (Exit.exits i) + List.length (Exit.timers i))%nat.
Proof.
  destruct a as [p|id|]; simpl; intros H; [| |contradiction].
  - unfold Exit.update. destruct (Exit.mounted i); auto.
    rewrite H. simpl. lia.
  - unfold Exit.fire.
    destruct (existsb _ (Exit.timers i)) eqn:E; auto.
    simpl. rewrite length_app. simpl.
    pose proof (filter_fired (fun t => (fst t =? id)%nat) (Exit.timers i) E).
    lia.
Qed.

(** X13: an exit is reported once.  Over a run of renders that change
    neither [in] nor [timeout], and of timer firings, [onExited] is
    called at most once, and not at all when no timer was live at the
    start. *)
Theorem exit_is_reported_once steps :
  forall i,
    Exit.sound i ->
    Exit.keeping i steps ->
    (List.length (Exit.exits (Exit.run i steps))
     <= List.length (Exit.exits i) + List.length (Exit.timers i))%nat
    /\ (List.length (Exit.exits (Exit.run i steps))
        <= List.length (Exit.exits i) + 1)%nat.
Proof.
  assert (H : forall i,
             Exit.keeping i steps ->
             (List.length (Exit.exits (Exit.run i steps))
              + List.length (Exit.timers (Exit.run i steps))
              <= List.length (Exit.exits i) + List.length (Exit.timers i))%nat).
  { induction steps as [|a steps IH]; intros i Hk; simpl; [lia|].
    destruct Hk as [Ha Hk].
    pose proof (exits_step i a Ha). specialize (IH _ Hk).
    change (fold_left Exit.step steps (Exit.step i a))
      with (Exit.run (Exit.step i a) steps).
    lia. }
  intros i [_ S _] Hk. specialize (H i Hk).
  assert (Hl : (List.length (Exit.timers i) <= 1)%nat)
    by (destruct S as [->|[_ ->]]; simpl; lia).
  lia.
Qed.

Lemma exit_is_reported_once_witness :
  Exit.exits
    (Exit.run (Exit.mount (Exit.mkProps (Some false) 550 (Some 3%nat)))
       [Exit.Update (Exit.mkProps (Some false) 550 (Some 4%nat));
        Exit.Fire 1; Exit.Fire 1;
        Exit.Update (Exit.mkProps (Some false) 550 (Some 5%nat))])
  = [Some 4%nat]
  /\ (List.length
        (Exit.exits
           (Exit.run (Exit.mount (Exit.mkProps (Some false) 550 (Some 3%nat)))
              [Exit.Update (Exit.mkProps (Some false) 550 (Some 4%nat));
               Exit.Fire 1; Exit.Fire 1;
               Exit.Update (Exit.mkProps (Some false) 550 (Some 5%nat))]))
      <= 0 + 1)%nat.
Proof.
  split; [reflexivity|].
  apply (exit_is_reported_once
           [Exit.Update (Exit.mkProps (Some false) 550 (Some 4%nat));
            Exit.Fire 1; Exit.Fire 1;
            Exit.Update (Exit.mkProps (Some false) 550 (Some 5%nat))]
           (Exit.mount (Exit.mkProps (Some false) 550 (Some 3%nat)))).
  - apply sound_mount.
  - simpl. repeat split.
Defined.

(* ================================================================== *)
(** ** The button's key handlers *)
(* ================================================================== *)

Lemma callHost_refs c name e r :
  let r' := snd (Button.callHost c name (e, r)) in
  Button.keydownRef r' = Button.keydownRef r
  /\ Button.buttonRef r' = Button.buttonRef r
  /\ Button.rippleRef r' = Button.rippleRef r
  /\ Button.continuations r' = Button.continuations r
  /\ Button.isFocusVisibleRef r' = Button.isFocusVisibleRef r
  /\ Button.setFocusVisible r' = Button.setFocusVisible r
  /\ Button.hostCalls r'
     = Button.hostCalls r
       ++ (if isSome (Button.host c name) then [name] else []).
Proof.
  unfold Button.callHost.
  destruct (Button.host c name); simpl; repeat split; auto.
  now rewrite app_nil_r.
Qed.

Lemma callHost_event c name e r :
  let e' := fst (Button.callHost c name (e, r)) in
  Button.native e' = Button.native e
  /\ Button.key e' = Button.key e
  /\ Button.onTarget e' = Button.onTarget e
  /\ Button.defaultPrevented e'
     = Button.defaultPrevented e
       || match Button.host c name with
          | Some h => Button.preventsDefault h
          | None => false
          end.
Proof.
  unfold Button.callHost.
  destruct (Button.host c name) as [h|]; simpl.
  - destruct (Button.preventsDefault h); simpl; repeat split; auto;
      now rewrite ?orb_true_r, ?orb_false_r.
  - repeat split; auto. now rewrite orb_false_r.
Qed.

Lemma isNonNativeButton_ext c r r' :
  Button.buttonRef r' = Button.buttonRef r ->
  Button.isNonNativeButton c r' = Button.isNonNativeButton c r.
Proof. unfold Button.isNonNativeButton. now intros ->. Qed.

Lemma stopThen_refs k e r :
  Button.buttonRef (Button.stopThen k e r) = Button.buttonRef r
  /\ Button.keydownRef (Button.stopThen k e r) = Button.keydownRef r
  /\ Button.hostCalls (Button.stopThen k e r) = Button.hostCalls r.
Proof.
  unfold Button.stopThen. destruct (Button.rippleRef r); repeat split.
Qed.

(** What the first statement of [handleKeyDown] leaves, and that the
    rest of the handler does not touch it. *)
Lemma handleKeyDown_ripple c e r :
  let r' := snd (Button.stateOf (Button.handleKeyDown c (e, r))) in
  let r1 :=
    if Button.focusRipple c && negb (Button.keydownRef r)
       && Button.focusVisible c && isSome (Button.rippleRef r)
       && Button.keyIs e " "
    then Button.stopThen (Button.StartAgain (Button.native e)) e
           (Button.set_keydownRef true r)
    else r in
  Button.rippleRef r' = Button.rippleRef r1
  /\ Button.continuations r' = Button.continuations r1
  /\ Button.keydownRef r' = Button.keydownRef r1.
Proof.
  cbv zeta. unfold Button.handleKeyDown.
  match goal with
  | |- context [Button.ownNonNative c e ?x] => set (r1 := x)
  end.
  destruct (Button.ownNonNative c e r1) as [own1|]; [|repeat split].
  match goal with
  | |- context [Button.callHost c Button.onKeyDown (?x, r1)] => set (e1 := x)
  end.
  destruct (callHost_refs c Button.onKeyDown e1 r1)
    as (K & _ & R & C & _).
  destruct (Button.callHost c Button.onKeyDown (e1, r1)) as [e2 r2].
  simpl in K, R, C.
  destruct (Button.ownNonNative c e2 r2) as [own2|];
    [|simpl; repeat split; auto].
  destruct (own2 && _ && _); simpl; [|repeat split; auto].
  destruct (callHost_refs c Button.onClick (Button.preventDefault e2) r2)
    as (K' & _ & R' & C' & _).
  simpl in K', R', C'. rewrite K', R', C'. repeat split; auto.
Qed.

Lemma handleKeyUp_ripple c e r :
  let r' := snd (Button.stateOf (Button.handleKeyUp c (e, r))) in
  let r1 :=
    if Button.focusRipple c && Button.keyIs e " "
       && isSome (Button.rippleRef r) && Button.focusVisible c
       && negb (Button.defaultPrevented e)
    then Button.stopThen (Button.PulsateAgain (Button.native e)) e
           (Button.set_keydownRef false r)
    else r in
  Button.rippleRef r' = Button.rippleRef r1
  /\ Button.continuations r' = Button.continuations r1
  /\ Button.keydownRef r' = Button.keydownRef r1.
Proof.
  cbv zeta. unfold Button.handleKeyUp.
  match goal with
  | |- context [Button.callHost c Button.onKeyUp (e, ?x)] => set (r1 := x)
  end.
  destruct (callHost_refs c Button.onKeyUp e r1) as (K & _ & R & C & _).
  destruct (Button.callHost c Button.onKeyUp (e, r1)) as [e2 r2].
  simpl in K, R, C.
  destruct (isSome (Button.host c Button.onClick) && Button.onTarget e2);
    [|simpl; repeat split; auto].
  destruct (Button.isNonNativeButton c r2) as [own|];
    [|simpl; repeat split; auto].
  destruct (own && _ && _); simpl; [|repeat split; auto].
  destruct (callHost_refs c Button.onClick e2 r2) as (K' & _ & R' & C' & _).
  simpl in K', R', C'. rewrite K', R', C'. repeat split; auto.
Qed.

(** X14: a held space key reaches the ripple once.  On a focus-visible
    button with [focusRipple] and a mounted ripple, the first space
    [keydown] raises [keydownRef] and calls [stop] with a continuation
    that starts a ripple again; while [keydownRef] is up no [keydown]
    touches the engine or creates a continuation.  A space [keyup] that
    reaches the ripple lowers [keydownRef]; one whose default was
    prevented does not, and leaves it up. *)
Theorem held_space_reaches_the_ripple_once c e r s :
  Button.rippling c = true ->
  Button.keyIs e " " = true ->
  Button.rippleRef r = Some s ->
  Button.keydownRef r = false ->
  let r1 := snd (Button.stateOf (Button.handleKeyDown c (e, r))) in
  (Button.keydownRef r1 = true
   /\ Button.rippleRef r1
      = Some (stop (Button.native e)
                (Some (List.length (Button.continuations r))) s)
   /\ Button.continuations r1
      = Button.continuations r ++ [Button.StartAgain (Button.native e)])
  /\ (forall c' e' r',
         Button.keydownRef r' = true ->
         let r2 := snd (Button.stateOf (Button.handleKeyDown c' (e', r'))) in
         Button.rippleRef r2 = Button.rippleRef r'
         /\ Button.continuations r2 = Button.continuations r'
         /\ Button.keydownRef r2 = true)
  /\ (forall e',
         Button.keyIs e' " " = true ->
         let r2 := snd (Button.stateOf (Button.handleKeyUp c (e', r1))) in
         Button.keydownRef r2 = Button.defaultPrevented e').
Proof.
  intros Hc Hk Hr Hd r1.
  unfold Button.rippling in Hc. apply andb_true_iff in Hc as [Hf Hv].
  destruct (handleKeyDown_ripple c e r) as (R & C & K).
  fold r1 in R, C, K.
  rewrite Hf, Hd, Hv, Hr, Hk in R, C, K. simpl in R, C, K.
  unfold Button.stopThen in R, C, K. simpl in R, C, K.
  rewrite Hr in R, C, K. simpl in R, C, K.
  split; [repeat split; assumption|]. split.
  - intros c' e' r' Hd' r2.
    destruct (handleKeyDown_ripple c' e' r') as (R' & C' & K').
    fold r2 in R', C', K'.
    rewrite Hd' in R', C', K'. simpl in R', C', K'.
    rewrite andb_false_r in R', C', K'. simpl in R', C', K'.
    repeat split; auto. now rewrite K'.
  - intros e' Hk' r2.
    destruct (handleKeyUp_ripple c e' r1) as (_ & _ & K').
    fold r2 in K'. rewrite K', Hf, Hk', Hv, R. simpl.
    destruct (Button.defaultPrevented e'); simpl; auto.
    unfold Button.stopThen. simpl. now rewrite R.
Qed.

Lemma held_space_reaches_the_ripple_once_witness :
  let r1 := snd (Button.stateOf
                   (Button.handleKeyDown ButtonSample.closure
                      (ButtonSample.keyEvent "keydown" " ",
                       ButtonSample.refs))) in
  Button.keydownRef r1 = true
  /\ Button.rippleRef r1
     = Some (stop (Button.native (ButtonSample.keyEvent "keydown" " "))
               (Some 0%nat) ButtonSample.focused)
  /\ Button.rippleRef
       (snd (Button.stateOf
               (Button.handleKeyDown ButtonSample.closure
                  (ButtonSample.keyEvent "keydown" " ", r1))))
     = Button.rippleRef r1.
Proof.
  destruct (held_space_reaches_the_ripple_once ButtonSample.closure
              (ButtonSample.keyEvent "keydown" " ") ButtonSample.refs
              ButtonSample.focused eq_refl eq_refl eq_refl eq_refl)
    as ((H1 & H2 & _) & H3 & _).
  split; [exact H1|]. split; [exact H2|].
  exact (proj1 (H3 ButtonSample.closure (ButtonSample.keyEvent "keydown" " ")
                  _ H1)).
Defined.

(* ================================================================== *)
(** ** The space key, from press to release *)
(* ================================================================== *)

(** An event that is neither a touch nor a mouse press is committed by
    [start] whatever the mouse flag says. *)
Lemma start_key s event options cb :
  touches event = None ->
  typeIs event "touchstart" = false ->
  typeIs event "mousedown" = false ->
  exists params,
    paramsOf s event options cb = Some params
    /\ start event options cb s = Returned (startCommit params s).
Proof.
  intros Ht Hn Hm.
  assert (Hs : suppressed event s = false)
    by (unfold suppressed; now rewrite Hm).
  unfold paramsOf.
  destruct (ripplePosition (centerOf s options) event
              (rectOf (elementOf s options))) as [[rx ry]|] eqn:Hp.
  - eexists. split; [reflexivity|].
    rewrite (start_unsuppressed event options cb s rx ry Hs Hp).
    unfold commitOrDefer, noteTouchStart. now rewrite Ht, Hn.
  - exfalso. unfold ripplePosition, pointOf in Hp. rewrite Ht in Hp.
    destruct (centered _ _); discriminate.
Qed.

Lemma shapes_start_key s event options cb :
  touches event = None ->
  typeIs event "touchstart" = false ->
  typeIs event "mousedown" = false ->
  shapes (engineOf (start event options cb s))
  = shapes s ++ shapeOfCall s (event, options, cb)
  /\ List.length (shapeOfCall s (event, options, cb)) = 1%nat.
Proof.
  intros Ht Hn Hm.
  destruct (start_key s event options cb Ht Hn Hm) as (params & Hp & E).
  rewrite E. simpl. rewrite Hp, shapes_startCommit. auto.
Qed.

Lemma shapes_stop event cb s :
  forceFire event s = false ->
  shapes (stop event cb s) = tl (shapes s).
Proof.
  intros FF. unfold shapes. rewrite pendingRipples_stop by exact FF.
  now destruct (pendingRipples s).
Qed.

Lemma changes_stop_nonempty event cb s :
  forceFire event s = false ->
  shapes s <> [] ->
  changes (stop event cb s) = true.
Proof.
  intros FF Hn. rewrite changes_stop by exact FF.
  unfold shapes in Hn. destruct (pendingRipples s); [contradiction|].
  apply orb_true_r.
Qed.


Lemma shapes_shown s : shapes (shown s) = shapes s.
Proof.
  unfold shapes at 1, pendingRipples at 1, shown. simpl. reflexivity.
Qed.

Lemma renderWith_changed ks s :
  changes s = true ->
  Button.renderWith ks s = Button.rippleCallbackEffectWith ks (shown s).
Proof.
  unfold changes, Button.renderWith, shown, pendingRipples.
  destruct (runUpdates (nextKey s) (updates s) (ripples s)) as [new ch].
  simpl. now intros ->.
Qed.

Lemma renderWith_unchanged ks s :
  changes s = false ->
  Button.renderWith ks s = set_updates [] s
  /\ shapes (Button.renderWith ks s) = shapes s.
Proof.
  intros H.
  assert (E : Button.renderWith ks s = set_updates [] s).
  { unfold changes, Button.renderWith in *.
    destruct (runUpdates (nextKey s) (updates s) (ripples s)) as [new ch].
    simpl in H. now subst ch. }
  split; [exact E|]. rewrite E.
  unfold shapes, pendingRipples. simpl.
  pose proof (runUpdates_same (nextKey s) (updates s) (ripples s) H) as Hs.
  now rewrite Hs.
Qed.

(** The render after a [stop] given a continuation: the continuation
    runs and queues its ripple. *)
Lemma renderWith_continues ks s cb k :
  changes s = true ->
  rippleCallback s = Some cb ->
  nth_error ks cb = Some k ->
  match k with
  | Button.StartAgain event =>
      touches event = None /\ typeIs event "touchstart" = false
      /\ typeIs event "mousedown" = false
  | Button.PulsateAgain _ => True
  end ->
  let added :=
    match k with
    | Button.StartAgain event =>
        shapeOfCall s (event, Button.noOptions, None)
    | Button.PulsateAgain _ =>
        shapeOfCall s (emptyEvent, mkOptions (Some true) None None, None)
    end in
  shapes (Button.renderWith ks s) = shapes s ++ added
  /\ List.length added = 1%nat
  /\ rippleCallback (Button.renderWith ks s) = None.
Proof.
  intros Hc Hcb Hk Hp added.
  rewrite (renderWith_changed ks s Hc).
  unfold Button.rippleCallbackEffectWith.
  change (rippleCallback (shown s)) with (rippleCallback s). rewrite Hcb.
  set (x := set_log (log (shown s) ++ [Called cb]) (shown s)).
  assert (Hx : shapes x = shapes s) by apply shapes_shown.
  assert (Henv : forall e o c, shapeOfCall x (e, o, c) = shapeOfCall s (e, o, c)).
  { intros e o c. unfold shapeOfCall.
    now rewrite (paramsOf_env s x). }
  unfold Button.invoke, added. rewrite Hk.
  destruct k as [event|event].
  - destruct Hp as (Ht & Hn & Hm).
    destruct (shapes_start_key x event Button.noOptions None Ht Hn Hm)
      as [H1 H2].
    rewrite Henv in H1, H2. rewrite Hx in H1.
    split; [|split; [exact H2|reflexivity]].
    rewrite <- H1. apply shapes_ext; reflexivity.
  - destruct (shapes_start_key x emptyEvent (mkOptions (Some true) None None)
                None eq_refl eq_refl eq_refl) as [H1 H2].
    rewrite Henv in H1, H2. rewrite Hx in H1.
    split; [|split; [exact H2|reflexivity]].
    rewrite <- H1. apply shapes_ext; reflexivity.
Qed.

Lemma renderWith_idle ks s :
  rippleCallback s = None ->
  shapes (Button.renderWith ks s) = shapes s.
Proof.
  intros Hn. destruct (changes s) eqn:Hc.
  - rewrite (renderWith_changed ks s Hc).
    unfold Button.rippleCallbackEffectWith.
    change (rippleCallback (shown s)) with (rippleCallback s).
    rewrite Hn. apply shapes_shown.
  - apply renderWith_unchanged, Hc.
Qed.

Lemma env_start event options cb s :
  centerProp (engineOf (start event options cb s)) = centerProp s
  /\ container (engineOf (start event options cb s)) = container s.
Proof.
  unfold start.
  destruct (suppressed event s); [split; reflexivity|].
  assert (H : centerProp (noteTouchStart event s) = centerProp s
              /\ container (noteTouchStart event s) = container s)
    by (unfold noteTouchStart; destruct (typeIs event "touchstart");
        split; reflexivity).
  destruct (ripplePosition _ _ _) as [[rx ry]|]; simpl; auto.
  unfold commitOrDefer, deferCommit.
  destruct (touches event); [destruct (startTimerCommit _)|]; simpl; auto.
Qed.

Lemma env_stop event cb s :
  centerProp (stop event cb s) = centerProp s
  /\ container (stop event cb s) = container s.
Proof.
  unfold stop.
  destruct (typeIs event "touchend"),
    (startTimerCommit (clearTimeout (startTimer s) s));
    simpl; destruct (startTimer s); split; reflexivity.
Qed.

Lemma env_renderWith ks s :
  centerProp (Button.renderWith ks s) = centerProp s
  /\ container (Button.renderWith ks s) = container s.
Proof.
  unfold Button.renderWith.
  destruct (runUpdates (nextKey s) (updates s) (ripples s)) as [new [|]];
    [|split; reflexivity].
  unfold Button.rippleCallbackEffectWith. simpl.
  destruct (rippleCallback s) as [cb|]; [|split; reflexivity].
  simpl. unfold Button.invoke.
  destruct (nth_error ks cb) as [[event|event]|]; [| |split; reflexivity].
  - match goal with
    | |- context [start event Button.noOptions None ?x] =>
        destruct (env_start event Button.noOptions None x) as [H1 H2]
    end.
    rewrite H1, H2. split; reflexivity.
  - match goal with
    | |- context [pulsate ?x] =>
        destruct (env_start emptyEvent (mkOptions (Some true) None None)
                    None x) as [H1 H2]
    end.
    unfold pulsate. rewrite H1, H2. split; reflexivity.
Qed.

(** One key handler call that reaches the ripple, followed by the two
    renders it causes. *)
Lemma stop_then_two_renders k e r s :
  Button.rippleRef r = Some s ->
  Button.plainKey e ->
  shapes s <> [] ->
  (k = Button.StartAgain (Button.native e)
   \/ k = Button.PulsateAgain (Button.native e)) ->
  let r3 := Button.renderRipple (Button.renderRipple (Button.stopThen k e r)) in
  let added :=
    match k with
    | Button.StartAgain _ =>
        shapeOfCall s (Button.native e, Button.noOptions, None)
    | Button.PulsateAgain _ =>
        shapeOfCall s (emptyEvent, mkOptions (Some true) None None, None)
    end in
  Button.rippleShapes r3 = tl (shapes s) ++ added
  /\ List.length added = 1%nat
  /\ Button.continuations r3 = Button.continuations r ++ [k]
  /\ Button.keydownRef r3 = Button.keydownRef r
  /\ Button.buttonRef r3 = Button.buttonRef r
  /\ exists s3, Button.rippleRef r3 = Some s3
                /\ shapes s3 = tl (shapes s) ++ added
                /\ centerProp s3 = centerProp s
                /\ container s3 = container s.
Proof.
  intros Hr (Ht & Hn & He & Hm) Hne Hk r3 added.
  set (ks := Button.continuations r ++ [k]).
  set (cb := List.length (Button.continuations r)).
  set (s1 := stop (Button.native e) (Some cb) s).
  assert (FF : forceFire (Button.native e) s = false)
    by (unfold forceFire; now rewrite He).
  assert (Hnth : nth_error ks cb = Some k).
  { unfold ks, cb. rewrite nth_error_app2 by lia.
    now rewrite Nat.sub_diag. }
  destruct (stop_plain_fields (Button.native e) (Some cb) s FF)
    as (_ & _ & _ & Hcb).
  fold s1 in Hcb.
  assert (Hc1 : changes s1 = true)
    by (apply changes_stop_nonempty; assumption).
  assert (Hs1 : shapes s1 = tl (shapes s)) by apply (shapes_stop _ _ _ FF).
  destruct (env_stop (Button.native e) (Some cb) s) as [C1 E1].
  fold s1 in C1, E1.
  assert (Henv1 : forall c, shapeOfCall s1 c = shapeOfCall s c).
  { intros [[e0 o0] c0]. unfold shapeOfCall.
    now rewrite (paramsOf_env s s1). }
  assert (Hplain : match k with
                   | Button.StartAgain event =>
                       touches event = None
                       /\ typeIs event "touchstart" = false
                       /\ typeIs event "mousedown" = false
                   | Button.PulsateAgain _ => True
                   end)
    by (destruct Hk as [->| ->]; auto).
  destruct (renderWith_continues ks s1 cb k Hc1 Hcb Hnth Hplain)
    as (H1 & H2 & H3).
  destruct (env_renderWith ks s1) as [C2 E2].
  set (s2 := Button.renderWith ks s1) in *.
  pose proof (renderWith_idle ks s2 H3) as H4.
  destruct (env_renderWith ks s2) as [C3 E3].
  assert (Ha : added
               = match k with
                 | Button.StartAgain event =>
                     shapeOfCall s1 (event, Button.noOptions, None)
                 | Button.PulsateAgain _ =>
                     shapeOfCall s1
                       (emptyEvent, mkOptions (Some true) None None, None)
                 end).
  { unfold added. destruct Hk as [->| ->]; now rewrite Henv1. }
  rewrite <- Ha in H1, H2.
  assert (Er : r3 = Button.set_rippleRef (Some (Button.renderWith ks s2))
                      (Button.set_continuations ks r)).
  { unfold r3, Button.stopThen. rewrite Hr. reflexivity. }
  rewrite Er. unfold Button.rippleShapes. simpl.
  rewrite H4, H1, Hs1.
  split; [reflexivity|]. split; [exact H2|].
  split; [reflexivity|]. split; [reflexivity|]. split; [reflexivity|].
  eexists. split; [reflexivity|].
  split; [now rewrite H4, H1, Hs1|].
  split; congruence.
Qed.

Lemma renderRipple_ext a b :
  Button.rippleRef a = Button.rippleRef b ->
  Button.continuations a = Button.continuations b ->
  Button.rippleRef (Button.renderRipple a)
  = Button.rippleRef (Button.renderRipple b)
  /\ Button.continuations (Button.renderRipple a)
     = Button.continuations (Button.renderRipple b).
Proof.
  intros Hr Hc. unfold Button.renderRipple. rewrite Hc.
  destruct (Button.rippleRef a) as [x|] eqn:Ea;
    destruct (Button.rippleRef b) as [y|] eqn:Eb; try discriminate.
  - injection Hr as ->. simpl. auto.
  - rewrite Ea, Eb. auto.
Qed.

Lemma renderRipple_keeps a :
  Button.keydownRef (Button.renderRipple a) = Button.keydownRef a
  /\ Button.continuations (Button.renderRipple a) = Button.continuations a
  /\ Button.buttonRef (Button.renderRipple a) = Button.buttonRef a.
Proof.
  unfold Button.renderRipple. destruct (Button.rippleRef a); repeat split.
Qed.

Lemma two_renders_ext a b :
  Button.rippleRef a = Button.rippleRef b ->
  Button.continuations a = Button.continuations b ->
  let a' := Button.renderRipple (Button.renderRipple a) in
  let b' := Button.renderRipple (Button.renderRipple b) in
  Button.rippleRef a' = Button.rippleRef b'
  /\ Button.continuations a' = Button.continuations b'
  /\ Button.rippleShapes a' = Button.rippleShapes b'
  /\ Button.keydownRef a' = Button.keydownRef a.
Proof.
  intros Hr Hc. simpl.
  destruct (renderRipple_ext a b Hr Hc) as [Hr1 Hc1].
  destruct (renderRipple_ext _ _ Hr1 Hc1) as [Hr2 Hc2].
  repeat split; auto.
  - unfold Button.rippleShapes. now rewrite Hr2.
  - destruct (renderRipple_keeps (Button.renderRipple a)) as (K & _).
    destruct (renderRipple_keeps a) as (K' & _). congruence.
Qed.

(** X15: the space key on a focus-visible button with [focusRipple]
    whose ripple shows something, pressed while the key is not already
    held ([keydownRef] is false).  The [keydown] stops the oldest
    ripple and, once React has rendered that, starts a new one: after
    the two renders that follow the [keydown] the collection is the old
    one without its first ripple followed by the press ripple.  A
    [keyup] whose default was not prevented stops the oldest again and,
    once rendered, starts a pulsating one: after the two renders that
    follow it the collection is that one without its first ripple
    followed by a pulsating ripple, so a button that showed only its
    focus ripple shows only a pulsating ripple again, and [keydownRef]
    is down.  A [keyup] whose default was prevented does not reach the
    ripple: the press ripple stays and [keydownRef] stays up. *)
Theorem space_key_cycle c eDown eUp r s :
  Button.rippling c = true ->
  Button.keyIs eDown " " = true ->
  Button.keyIs eUp " " = true ->
  Button.defaultPrevented eUp = false ->
  Button.plainKey eDown ->
  Button.plainKey eUp ->
  Button.rippleRef r = Some s ->
  Button.keydownRef r = false ->
  shapes s <> [] ->
  let pressShape := shapeOfCall s (Button.native eDown, Button.noOptions, None) in
  let pulseShape :=
    shapeOfCall s (emptyEvent, mkOptions (Some true) None None, None) in
  let r3 :=
    Button.renderRipple
      (Button.renderRipple
         (snd (Button.stateOf (Button.handleKeyDown c (eDown, r))))) in
  let r6 :=
    Button.renderRipple
      (Button.renderRipple
         (snd (Button.stateOf (Button.handleKeyUp c (eUp, r3))))) in
  Button.rippleShapes r3 = tl (shapes s) ++ pressShape
  /\ Button.rippleShapes r6 = tl (tl (shapes s) ++ pressShape) ++ pulseShape
  /\ List.length pressShape = 1%nat
  /\ List.length pulseShape = 1%nat
  /\ (List.length (shapes s) = 1%nat -> Button.rippleShapes r6 = pulseShape)
  /\ Button.keydownRef r6 = false
  /\ (forall eUp',
         Button.defaultPrevented eUp' = true ->
         let r4 := snd (Button.stateOf (Button.handleKeyUp c (eUp', r3))) in
         Button.rippleShapes r4 = Button.rippleShapes r3
         /\ Button.keydownRef r4 = true).
Proof.
  intros Hc Hkd Hku Hdp Hpd Hpu Hr Hd Hne pressShape pulseShape r3 r6.
  unfold Button.rippling in Hc. apply andb_true_iff in Hc as [Hf Hv].
  (* the press *)
  assert (HD : let r' := snd (Button.stateOf (Button.handleKeyDown c (eDown, r))) in
               let r1 := Button.stopThen (Button.StartAgain (Button.native eDown))
                           eDown (Button.set_keydownRef true r) in
               Button.rippleRef r' = Button.rippleRef r1
               /\ Button.continuations r' = Button.continuations r1
               /\ Button.keydownRef r' = Button.keydownRef r1).
  { pose proof (handleKeyDown_ripple c eDown r) as H. cbv zeta in H.
    rewrite Hf, Hd, Hv, Hr, Hkd in H. exact H. }
  destruct HD as (R & C & K).
  destruct (two_renders_ext _ _ R C) as (R3 & C3 & S3 & K3).
  fold r3 in R3, C3, S3, K3.
  destruct (stop_then_two_renders (Button.StartAgain (Button.native eDown))
              eDown (Button.set_keydownRef true r) s Hr Hpd Hne
              (or_introl eq_refl))
    as (P1 & P2 & P3 & P4 & _ & s3 & P5 & P6 & P7 & P8).
  fold pressShape in P1, P2, P6.
  rewrite P1 in S3. rewrite P5 in R3.
  assert (K3' : Button.keydownRef r3 = true).
  { rewrite K3, K.
    now destruct (stopThen_refs (Button.StartAgain (Button.native eDown))
                    eDown (Button.set_keydownRef true r)) as (_ & -> & _). }
  (* the release *)
  assert (HU : let r' := snd (Button.stateOf (Button.handleKeyUp c (eUp, r3))) in
               let r1 := Button.stopThen (Button.PulsateAgain (Button.native eUp))
                           eUp (Button.set_keydownRef false r3) in
               Button.rippleRef r' = Button.rippleRef r1
               /\ Button.continuations r' = Button.continuations r1
               /\ Button.keydownRef r' = Button.keydownRef r1).
  { pose proof (handleKeyUp_ripple c eUp r3) as H. cbv zeta in H.
    rewrite Hf, Hku, R3, Hv, Hdp in H. exact H. }
  destruct HU as (R' & C' & K').
  destruct (two_renders_ext _ _ R' C') as (R6 & C6 & S6 & K6).
  fold r6 in R6, C6, S6, K6.
  assert (Hne3 : shapes s3 <> []).
  { rewrite P6. destruct pressShape; [discriminate|].
    intros E. apply app_eq_nil in E as [_ E]. discriminate. }
  destruct (stop_then_two_renders (Button.PulsateAgain (Button.native eUp))
              eUp (Button.set_keydownRef false r3) s3 R3 Hpu Hne3
              (or_intror eq_refl))
    as (Q1 & Q2 & _).
  assert (Henv : shapeOfCall s3
                   (emptyEvent, mkOptions (Some true) None None, None)
                 = pulseShape).
  { unfold pulseShape, shapeOfCall. now rewrite (paramsOf_env s s3). }
  rewrite Henv, P6 in Q1. rewrite Henv in Q2.
  rewrite Q1 in S6.
  split; [exact S3|]. split; [exact S6|].
  split; [exact P2|]. split; [exact Q2|]. split.
  - intros Hl. rewrite S6.
    destruct (shapes s) as [|x [|y l]]; try discriminate.
    simpl. destruct pressShape as [|p [|q l]]; try discriminate.
    reflexivity.
  - split.
    + rewrite K6, K'.
      now destruct (stopThen_refs (Button.PulsateAgain (Button.native eUp))
                      eUp (Button.set_keydownRef false r3)) as (_ & -> & _).
    + intros eUp' Hp.
      pose proof (handleKeyUp_ripple c eUp' r3) as H. cbv zeta in H.
      rewrite Hp in H. cbn [negb] in H. rewrite andb_false_r in H.
      destruct H as (Rr & _ & Kk). cbv zeta. split.
      * unfold Button.rippleShapes. now rewrite Rr.
      * now rewrite Kk.
Qed.

Lemma space_key_cycle_witness :
  let r3 :=
    Button.renderRipple
      (Button.renderRipple
         (snd (Button.stateOf
                 (Button.handleKeyDown ButtonSample.closure
                    (ButtonSample.keyEvent "keydown" " ",
                     ButtonSample.refs))))) in
  let r6 :=
    Button.renderRipple
      (Button.renderRipple
         (snd (Button.stateOf
                 (Button.handleKeyUp ButtonSample.closure
                    (ButtonSample.keyEvent "keyup" " ", r3))))) in
  Button.rippleShapes r3
  = [(false, 50, 25, JS.sqrt (JS.sq 102 + JS.sq 52))]
  /\ Button.rippleShapes r6 = [(true, 50, 25, JS.sqrt 7500)].
Proof.
  intros r3 r6.
  destruct (space_key_cycle ButtonSample.closure
              (ButtonSample.keyEvent "keydown" " ")
              (ButtonSample.keyEvent "keyup" " ")
              ButtonSample.refs ButtonSample.focused
              eq_refl eq_refl eq_refl eq_refl)
    as (H1 & H2 & _ & _ & H3 & _).
  - repeat split.
  - repeat split.
  - reflexivity.
  - reflexivity.
  - vm_compute. discriminate.
  - split.
    + etransitivity; [exact H1|]. vm_compute. reflexivity.
    + etransitivity; [apply H3; vm_compute; reflexivity|].
      vm_compute. reflexivity.
Defined.

(** X16: a blur always lowers the focus flag.  Whatever the props, the
    event and the refs, with or without a mounted ripple, after
    [handleBlur] the hook's [isFocusVisibleRef] is false,
    [setFocusVisible(false)] has been called exactly once (the test
    [isFocusVisibleRef.current === false] cannot fail after
    [handleBlurVisible]), the module remembers a recent focus-visible
    element exactly when the ref was up or it already did, and the
    host's [onBlur] is called once if given.  The ripple is stopped
    also when [disableTouchRipple] is set: a mounted ripple is the
    engine after [stop(event)], so for an event that is not a
    [touchend] it shows its collection without the first instance;
    without a mounted ripple there is still none. *)
Theorem blur_lowers_focus_and_stops c e r :
  let r' := snd (Button.handleBlur c (e, r)) in
  Button.isFocusVisibleRef r' = false
  /\ Button.setFocusVisible r' = Button.setFocusVisible r ++ [false]
  /\ FocusVisible.hadFocusVisibleRecently (Button.globals r')
     = Button.isFocusVisibleRef r
       || FocusVisible.hadFocusVisibleRecently (Button.globals r)
  /\ Button.hostCalls r'
     = Button.hostCalls r
       ++ (if isSome (Button.host c Button.onBlur)
           then [Button.onBlur] else [])
  /\ Button.rippleRef r'
     = match Button.rippleRef r with
       | Some s => Some (stop (Button.native e) None s)
       | None => None
       end
  /\ (forall s,
         Button.rippleRef r = Some s ->
         typeIs (Button.native e) "touchend" = false ->
         Button.rippleShapes r' = tl (shapes s)).
Proof.
  cbv zeta.
  assert (Hs : forall s, typeIs (Button.native e) "touchend" = false ->
                         shapes (stop (Button.native e) None s)
                         = tl (shapes s)).
  { intros s Ht. apply shapes_stop. unfold forceFire. now rewrite Ht. }
  unfold Button.handleBlur, Button.rippleHandler, Button.callHost,
    FocusVisible.handleBlurVisible.
  destruct r as [kd br fr rr g ks hc sf].
  destruct fr;
    destruct (Button.host c Button.onBlur) as [[[|]]|];
    destruct rr as [s0|];
    cbn -[stop shapes]; unfold Button.rippleShapes; cbn -[stop shapes];
    rewrite ?app_nil_r;
    repeat split;
    try (intros s Hr Ht; try discriminate; injection Hr as <-;
         exact (Hs s0 Ht)).
Qed.

Lemma blur_lowers_focus_and_stops_witness :
  let c := Button.mkClosure (Button.Tag "button") false true true
             ButtonSample.noHost true in
  let r' := snd (Button.handleBlur c
                   (ButtonSample.keyEvent "blur" "Tab", ButtonSample.refs)) in
  Button.isFocusVisibleRef r' = false
  /\ Button.setFocusVisible r' = [false]
  /\ Button.rippleShapes r' = [].
Proof.
  intros c r'.
  destruct (blur_lowers_focus_and_stops c
              (ButtonSample.keyEvent "blur" "Tab") ButtonSample.refs)
    as (H1 & H2 & _ & _ & _ & H3).
  split; [exact H1|]. split; [exact H2|].
  etransitivity; [exact (H3 ButtonSample.focused eq_refl eq_refl)|].
  vm_compute. reflexivity.
Defined.

Lemma ownNonNative_some c e r b :
  Button.buttonRef r = Some b ->
  Button.ownNonNative c e r
  = Some (Button.onTarget e && Clicks.nonNative c b).
Proof.
  intros Hb. unfold Button.ownNonNative, Button.isNonNativeButton,
    Clicks.nonNative.
  rewrite Hb.
  destruct (Button.onTarget e); [|reflexivity].
  destruct (Button.truthyType (Button.component c)
            && negb (Button.isTag (Button.component c) "button"));
    reflexivity.
Qed.

Lemma isNonNativeButton_some c r b :
  Button.buttonRef r = Some b ->
  Button.isNonNativeButton c r = Some (Clicks.nonNative c b).
Proof.
  intros Hb. unfold Button.isNonNativeButton, Clicks.nonNative.
  rewrite Hb.
  destruct (Button.truthyType (Button.component c)
            && negb (Button.isTag (Button.component c) "button"));
    reflexivity.
Qed.

Lemma clicks_callHost c name e r :
  Clicks.clicks (snd (Button.callHost c name (e, r)))
  = (Clicks.clicks r
     + if isSome (Button.host c name) && Clicks.isClick name then 1 else 0)%nat.
Proof.
  unfold Clicks.clicks.
  destruct (callHost_refs c name e r) as (_ & _ & _ & _ & _ & _ & H).
  cbv zeta in H. rewrite H, filter_app, length_app.
  destruct (isSome (Button.host c name)); simpl;
    [destruct (Clicks.isClick name)|]; reflexivity.
Qed.

Lemma keyIs_callHost c name e r k :
  Button.keyIs (fst (Button.callHost c name (e, r))) k = Button.keyIs e k.
Proof.
  destruct (callHost_event c name e r) as (_ & K & _).
  unfold Button.keyIs. cbv zeta in K. now rewrite K.
Qed.

(** What [handleKeyDown] does besides the ripple, once [buttonRef] holds
    an element. *)
Lemma handleKeyDown_done c e r b :
  Button.buttonRef r = Some b ->
  exists st,
    Button.handleKeyDown c (e, r) = Button.Done st
    /\ Button.buttonRef (snd st) = Some b
    /\ Clicks.clicks (snd st)
       = (Clicks.clicks r
          + if Button.onTarget e && Clicks.nonNative c b
               && Button.keyIs e "Enter" && negb (Button.disabled c)
               && isSome (Button.host c Button.onClick)
            then 1 else 0)%nat
    /\ (Button.onTarget e && Clicks.nonNative c b
        && (Button.keyIs e " "
            || (Button.keyIs e "Enter" && negb (Button.disabled c))) = true ->
        Button.defaultPrevented (fst st) = true).
Proof.
  intros Hb. unfold Button.handleKeyDown.
  match goal with
  | |- context [Button.ownNonNative c e ?x] => set (r1 := x)
  end.
  assert (B1 : Button.buttonRef r1 = Some b /\ Clicks.clicks r1 = Clicks.clicks r).
  { subst r1. destruct (_ && _ && _ && _ && _); [|auto].
    destruct (stopThen_refs (Button.StartAgain (Button.native e)) e
                (Button.set_keydownRef true r)) as (B & _ & H).
    unfold Clicks.clicks. rewrite B, H. auto. }
  destruct B1 as [B1 N1].
  rewrite (ownNonNative_some c e r1 b B1).
  match goal with
  | |- context [Button.callHost c Button.onKeyDown (?x, r1)] => set (e1 := x)
  end.
  assert (T1 : Button.onTarget e1 = Button.onTarget e)
    by (subst e1;
        now destruct (Button.onTarget e && Clicks.nonNative c b
                      && Button.keyIs e " ")).
  assert (K1 : Button.keyIs e1 "Enter" = Button.keyIs e "Enter")
    by (subst e1;
        now destruct (Button.onTarget e && Clicks.nonNative c b
                      && Button.keyIs e " ")).
  assert (D1 : Button.onTarget e && Clicks.nonNative c b
               && Button.keyIs e " " = true ->
               Button.defaultPrevented e1 = true).
  { intros H. subst e1. now rewrite H. }
  clearbody e1.
  pose proof (callHost_refs c Button.onKeyDown e1 r1) as HR.
  pose proof (callHost_event c Button.onKeyDown e1 r1) as HE.
  pose proof (clicks_callHost c Button.onKeyDown e1 r1) as HC.
  pose proof (keyIs_callHost c Button.onKeyDown e1 r1 "Enter") as HK.
  destruct (Button.callHost c Button.onKeyDown (e1, r1)) as [e2 r2].
  cbv zeta in HR, HE. simpl fst in HE, HK. simpl snd in HR, HC.
  destruct HR as (_ & B2 & _). destruct HE as (_ & _ & T2 & D2).
  rewrite B1 in B2.
  rewrite (ownNonNative_some c e2 r2 b B2), T2.
  rewrite T1 in *. rewrite K1 in HK. rewrite HK.
  change (Clicks.isClick Button.onKeyDown) with false in HC.
  rewrite andb_false_r, Nat.add_0_r, N1 in HC.
  destruct (Button.onTarget e && Clicks.nonNative c b) eqn:Own;
    cbn [andb orb] in *.
  - destruct (Button.keyIs e "Enter") eqn:KE; cbn [andb orb] in *.
    + destruct (Button.disabled c); cbn [andb orb negb] in *.
      * eexists. split; [reflexivity|]. cbn [fst snd].
        split; [exact B2|]. split; [lia|].
        intros H. rewrite orb_false_r in H. rewrite D2, (D1 H). reflexivity.
      * pose proof (callHost_refs c Button.onClick
                      (Button.preventDefault e2) r2) as HR'.
        pose proof (callHost_event c Button.onClick
                      (Button.preventDefault e2) r2) as HE'.
        pose proof (clicks_callHost c Button.onClick
                      (Button.preventDefault e2) r2) as HC'.
        destruct (Button.callHost c Button.onClick
                    (Button.preventDefault e2, r2)) as [e3 r3].
        cbv zeta in HR', HE'. simpl fst in HE'. simpl snd in HR', HC'.
        destruct HR' as (_ & B3 & _). destruct HE' as (_ & _ & _ & D3).
        eexists. split; [reflexivity|]. cbn [fst snd].
        split; [congruence|]. split.
        -- rewrite HC', HC. now rewrite andb_true_r.
        -- intros _. rewrite D3. reflexivity.
    + eexists. split; [reflexivity|]. cbn [fst snd].
      split; [exact B2|]. split; [lia|].
      intros H. rewrite orb_false_r in H. rewrite D2, (D1 H). reflexivity.
  - eexists. split; [reflexivity|]. cbn [fst snd].
    split; [exact B2|]. split; [lia|]. discriminate.
Qed.

(** The same for [handleKeyUp]. *)
Lemma handleKeyUp_done c e r b :
  Button.buttonRef r = Some b ->
  exists st,
    Button.handleKeyUp c (e, r) = Button.Done st
    /\ Button.buttonRef (snd st) = Some b
    /\ Clicks.clicks (snd st)
       = (Clicks.clicks r
          + if isSome (Button.host c Button.onClick) && Button.onTarget e
               && Clicks.nonNative c b && Button.keyIs e " "
               && negb (Button.defaultPrevented e
                        || Clicks.hostPrevents c Button.onKeyUp)
            then 1 else 0)%nat.
Proof.
  intros Hb. unfold Button.handleKeyUp.
  match goal with
  | |- context [Button.callHost c Button.onKeyUp (e, ?x)] => set (r1 := x)
  end.
  assert (B1 : Button.buttonRef r1 = Some b /\ Clicks.clicks r1 = Clicks.clicks r).
  { subst r1. destruct (_ && _ && _ && _ && _); [|auto].
    destruct (stopThen_refs (Button.PulsateAgain (Button.native e)) e
                (Button.set_keydownRef false r)) as (B & _ & H).
    unfold Clicks.clicks. rewrite B, H. auto. }
  destruct B1 as [B1 N1].
  pose proof (callHost_refs c Button.onKeyUp e r1) as HR.
  pose proof (callHost_event c Button.onKeyUp e r1) as HE.
  pose proof (clicks_callHost c Button.onKeyUp e r1) as HC.
  pose proof (keyIs_callHost c Button.onKeyUp e r1 " ") as HK.
  destruct (Button.callHost c Button.onKeyUp (e, r1)) as [e2 r2].
  cbv zeta in HR, HE. simpl fst in HE, HK. simpl snd in HR, HC.
  destruct HR as (_ & B2 & _). destruct HE as (_ & _ & T2 & D2).
  rewrite B1 in B2.
  change (Clicks.isClick Button.onKeyUp) with false in HC.
  rewrite andb_false_r, Nat.add_0_r, N1 in HC.
  rewrite T2, HK, D2. fold (Clicks.hostPrevents c Button.onKeyUp).
  destruct (isSome (Button.host c Button.onClick)) eqn:Hclick;
    [destruct (Button.onTarget e)|]; cbn [andb].
  - rewrite (isNonNativeButton_some c r2 b B2).
    destruct (Clicks.nonNative c b && Button.keyIs e " "
              && negb (Button.defaultPrevented e
                       || Clicks.hostPrevents c Button.onKeyUp)) eqn:G.
    + pose proof (callHost_refs c Button.onClick e2 r2) as HR'.
      pose proof (clicks_callHost c Button.onClick e2 r2) as HC'.
      destruct (Button.callHost c Button.onClick (e2, r2)) as [e3 r3].
      cbv zeta in HR'. simpl snd in HR', HC'.
      destruct HR' as (_ & B3 & _).
      eexists. split; [reflexivity|]. cbn [fst snd].
      split; [congruence|]. rewrite HC', HC, Hclick. reflexivity.
    + eexists. split; [reflexivity|]. cbn [fst snd].
      split; [exact B2|]. lia.
  - eexists. split; [reflexivity|]. cbn [fst snd].
    split; [exact B2|]. lia.
  - eexists. split; [reflexivity|]. cbn [fst snd].
    split; [exact B2|]. lia.
Qed.

(** X17: a focus makes the key handlers safe.  [handleFocus] leaves an
    element in [buttonRef] (the one it had, or the event's
    [currentTarget]), and with an element there neither [handleKeyDown]
    nor [handleKeyUp] throws, for any props and any event. *)
Theorem focus_makes_key_handlers_safe c eF e r :
  let r1 := snd (Button.handleFocus c (eF, r)) in
  Button.buttonRef r1
  = Some match Button.buttonRef r with
         | Some b => b
         | None => Button.currentTarget eF
         end
  /\ (exists st, Button.handleKeyDown c (e, r1) = Button.Done st)
  /\ (exists st, Button.handleKeyUp c (e, r1) = Button.Done st).
Proof.
  cbv zeta.
  assert (B : Button.buttonRef (snd (Button.handleFocus c (eF, r)))
              = Some match Button.buttonRef r with
                     | Some b => b
                     | None => Button.currentTarget eF
                     end).
  { unfold Button.handleFocus, FocusVisible.handleFocusVisible.
    set (r0 := match Button.buttonRef r with
               | Some _ => r
               | None => Button.set_buttonRef (Some (Button.currentTarget eF)) r
               end).
    assert (B0 : Button.buttonRef r0
                 = Some match Button.buttonRef r with
                        | Some b => b
                        | None => Button.currentTarget eF
                        end)
      by (subst r0; destruct (Button.buttonRef r) eqn:E; [exact E|reflexivity]).
    clearbody r0.
    destruct (FocusVisible.isFocusVisible (Button.target eF) (Button.globals r0));
      cbn [Button.set_focusRef Button.isFocusVisibleRef].
    - match goal with
      | |- context [Button.callHost c Button.onFocusVisible (eF, ?x)] =>
          pose proof (callHost_refs c Button.onFocusVisible eF x) as H1;
          destruct (Button.callHost c Button.onFocusVisible (eF, x)) as [e1 r1]
      end.
      pose proof (callHost_refs c Button.onFocus e1 r1) as H2.
      cbv zeta in H1, H2. simpl snd in H1.
      destruct H1 as (_ & H1 & _). destruct H2 as (_ & H2 & _).
      rewrite H2, H1. exact B0.
    - destruct (Button.isFocusVisibleRef r0).
      + match goal with
        | |- context [Button.callHost c Button.onFocusVisible (eF, ?x)] =>
            pose proof (callHost_refs c Button.onFocusVisible eF x) as H1;
            destruct (Button.callHost c Button.onFocusVisible (eF, x)) as [e1 r1]
        end.
        pose proof (callHost_refs c Button.onFocus e1 r1) as H2.
        cbv zeta in H1, H2. simpl snd in H1.
        destruct H1 as (_ & H1 & _). destruct H2 as (_ & H2 & _).
        rewrite H2, H1. exact B0.
      + match goal with
        | |- context [Button.callHost c Button.onFocus (eF, ?x)] =>
            pose proof (callHost_refs c Button.onFocus eF x) as H2
        end.
        cbv zeta in H2. destruct H2 as (_ & H2 & _).
        rewrite H2. exact B0. }
  split; [exact B|]. split.
  - destruct (handleKeyDown_done c e _ _ B) as (st & H & _). now exists st.
  - destruct (handleKeyUp_done c e _ _ B) as (st & H & _). now exists st.
Qed.

(** X18: a key event on a component that is not a native button, whose
    element [buttonRef] does not hold yet, throws where
    [isNonNativeButton] reads [button.tagName].  [handleKeyDown] throws
    before it prevents the default and before it calls the host's
    [onKeyDown]; [handleKeyUp] throws after the host's [onKeyUp], and
    only when the host gave an [onClick]. *)
Theorem key_without_button_element_throws c e r :
  Button.buttonRef r = None ->
  Button.truthyType (Button.component c)
  && negb (Button.isTag (Button.component c) "button") = true ->
  Button.onTarget e = true ->
  (exists st,
     Button.handleKeyDown c (e, r) = Button.Thrown st
     /\ fst st = e
     /\ Button.hostCalls (snd st) = Button.hostCalls r)
  /\ (exists st,
        Button.handleKeyUp c (e, r)
        = (if isSome (Button.host c Button.onClick)
           then Button.Thrown st else Button.Done st)
        /\ Button.hostCalls (snd st)
           = Button.hostCalls r
             ++ (if isSome (Button.host c Button.onKeyUp)
                 then [Button.onKeyUp] else [])).
Proof.
  intros Hb Hc Ht.
  assert (N : forall r', Button.buttonRef r' = None ->
                         Button.isNonNativeButton c r' = None).
  { intros r' H. unfold Button.isNonNativeButton. now rewrite Hc, H. }
  split.
  - unfold Button.handleKeyDown.
    match goal with
    | |- context [Button.ownNonNative c e ?x] => set (r1 := x)
    end.
    assert (B1 : Button.buttonRef r1 = None
                 /\ Button.hostCalls r1 = Button.hostCalls r).
    { subst r1. destruct (_ && _ && _ && _ && _); [|auto].
      destruct (stopThen_refs (Button.StartAgain (Button.native e)) e
                  (Button.set_keydownRef true r)) as (B & _ & H).
      rewrite B, H. auto. }
    destruct B1 as [B1 H1].
    unfold Button.ownNonNative at 1. rewrite Ht, (N r1 B1).
    exists (e, r1). auto.
  - unfold Button.handleKeyUp.
    match goal with
    | |- context [Button.callHost c Button.onKeyUp (e, ?x)] => set (r1 := x)
    end.
    assert (B1 : Button.buttonRef r1 = None
                 /\ Button.hostCalls r1 = Button.hostCalls r).
    { subst r1. destruct (_ && _ && _ && _ && _); [|auto].
      destruct (stopThen_refs (Button.PulsateAgain (Button.native e)) e
                  (Button.set_keydownRef false r)) as (B & _ & H).
      rewrite B, H. auto. }
    destruct B1 as [B1 H1].
    pose proof (callHost_refs c Button.onKeyUp e r1) as HR.
    pose proof (callHost_event c Button.onKeyUp e r1) as HE.
    destruct (Button.callHost c Button.onKeyUp (e, r1)) as [e2 r2].
    cbv zeta in HR, HE. simpl fst in HE. simpl snd in HR.
    destruct HR as (_ & B2 & _ & _ & _ & _ & H2).
    destruct HE as (_ & _ & T2 & _).
    rewrite B1 in B2. rewrite H1 in H2. rewrite T2, Ht, (N r2 B2).
    exists (e2, r2).
    destruct (isSome (Button.host c Button.onClick)); cbn [andb];
      split; auto.
Qed.

Lemma key_without_button_element_throws_witness :
  let r := Button.mkRefs false None false None FocusVisible.loaded [] [] [] in
  (exists st,
     Button.handleKeyDown ButtonSample.divClosure
       (ButtonSample.keyEvent "keydown" "Enter", r) = Button.Thrown st
     /\ Button.hostCalls (snd st) = [])
  /\ (exists st,
        Button.handleKeyUp ButtonSample.divClosure
          (ButtonSample.keyEvent "keyup" " ", r) = Button.Thrown st).
Proof.
  intros r. split.
  - destruct (key_without_button_element_throws ButtonSample.divClosure
                (ButtonSample.keyEvent "keydown" "Enter") r
                eq_refl eq_refl eq_refl) as [(st & H & _ & Hc) _].
    exists st. split; [exact H | exact Hc].
  - destruct (key_without_button_element_throws ButtonSample.divClosure
                (ButtonSample.keyEvent "keyup" " ") r
                eq_refl eq_refl eq_refl) as [_ (st & H & _)].
    exists st. exact H.
Defined.

Lemma keyIs_key e k k' :
  Button.key e = Some k -> Button.keyIs e k' = String.eqb k k'.
Proof. unfold Button.keyIs. now intros ->. Qed.

(** X19: one press and release of Enter or of the space key on the
    element itself calls the host's [onClick] once when the component
    is not a native button, and never when it is one (or is a link with
    an [href]); the browser does it then.  Enter clicks on [keydown],
    unless the button is [disabled]; space clicks on [keyup], and
    [disabled] is not looked at there.  On a button that is not native
    the [keydown] of either key has its default prevented unless the
    key is Enter and the button is disabled. *)
Theorem one_click_per_key_press c eDown eUp r b k :
  Button.buttonRef r = Some b ->
  Button.onTarget eDown = true ->
  Button.onTarget eUp = true ->
  Button.key eDown = Some k ->
  Button.key eUp = Some k ->
  k = "Enter"%string \/ k = " "%string ->
  Button.defaultPrevented eUp = false ->
  Clicks.hostPrevents c Button.onKeyUp = false ->
  isSome (Button.host c Button.onClick) = true ->
  let down := Button.stateOf (Button.handleKeyDown c (eDown, r)) in
  let up := Button.stateOf (Button.handleKeyUp c (eUp, snd down)) in
  Clicks.clicks (snd down)
  = (Clicks.clicks r
     + if Clicks.nonNative c b && String.eqb k "Enter"
          && negb (Button.disabled c)
       then 1 else 0)%nat
  /\ Clicks.clicks (snd up)
     = (Clicks.clicks (snd down)
        + if Clicks.nonNative c b && String.eqb k " " then 1 else 0)%nat
  /\ (Button.disabled c = false ->
      Clicks.clicks (snd up)
      = (Clicks.clicks r + if Clicks.nonNative c b then 1 else 0)%nat)
  /\ (Clicks.nonNative c b = true ->
      Button.disabled c && String.eqb k "Enter" = false ->
      Button.defaultPrevented (fst down) = true).
Proof.
  intros Hb Td Tu Kd Ku Hk Du Hp Hc down up.
  destruct (handleKeyDown_done c eDown r b Hb) as (st & E & B1 & C1 & D1).
  assert (Ed : down = st) by (unfold down; now rewrite E).
  destruct (handleKeyUp_done c eUp (snd st) b B1) as (st' & E' & _ & C2).
  assert (Eu : up = st') by (unfold up; now rewrite Ed, E').
  rewrite Ed, Eu. clear E E' Ed Eu down up.
  rewrite Td, Hc, (keyIs_key eDown k "Enter" Kd) in C1.
  rewrite Td, (keyIs_key eDown k "Enter" Kd), (keyIs_key eDown k " " Kd) in D1.
  rewrite Tu, Hc, Du, Hp, (keyIs_key eUp k " " Ku) in C2.
  cbn [andb orb negb] in C1, C2, D1.
  rewrite !andb_true_r in C1, C2.
  split; [exact C1|]. split; [exact C2|]. split.
  - intros Hd. rewrite Hd in C1. cbn [negb] in C1.
    rewrite andb_true_r in C1. rewrite C2, C1.
    generalize (Clicks.clicks r). intros n.
    destruct (Clicks.nonNative c b); destruct Hk as [-> | ->];
      cbn; lia.
  - intros Hn Hd. apply D1. rewrite Hn. cbn [andb].
    destruct Hk as [-> | ->].
    + destruct (Button.disabled c); [discriminate|reflexivity].
    + reflexivity.
Qed.

Lemma one_click_per_key_press_witness :
  let down :=
    Button.stateOf
      (Button.handleKeyDown ButtonSample.divClosure
         (ButtonSample.keyEvent "keydown" " ", ButtonSample.divRefs)) in
  let up :=
    Button.stateOf
      (Button.handleKeyUp ButtonSample.divClosure
         (ButtonSample.keyEvent "keyup" " ", snd down)) in
  Clicks.clicks (snd down) = 0%nat
  /\ Clicks.clicks (snd up) = 1%nat
  /\ Button.defaultPrevented (fst down) = true.
Proof.
  intros down up.
  destruct (one_click_per_key_press ButtonSample.divClosure
              (ButtonSample.keyEvent "keydown" " ")
              (ButtonSample.keyEvent "keyup" " ")
              ButtonSample.divRefs ButtonSample.divElement " "
              eq_refl eq_refl eq_refl eq_refl eq_refl
              (or_intror eq_refl) eq_refl eq_refl eq_refl)
    as (H1 & _ & H3 & H4).
  split; [exact H1|]. split; [exact (H3 eq_refl)|].
  exact (H4 eq_refl eq_refl).
Defined.
